(** * The Longhorn volume snapshotter plugin of Velero

    A shallow embedding of [internal/plugin/volumesnapshotterplugin.go]:
    the [VolumeSnapshotter] struct with its two registry maps, and the
    methods [Init], [CreateVolumeFromSnapshot], [GetVolumeInfo],
    [IsVolumeReady], [CreateSnapshot], [DeleteSnapshot], [GetVolumeID] and
    [SetVolumeID].

    The methods are written as programs over the primitive actions the Go
    code performs (a read or a write of one map entry, a log line, a call of
    an external library), so that the same program text has a sequential
    semantics ([exec]) and an interleaved one ([race]). *)

From stdpp Require Import gmap strings list fin_maps.
From Stdlib Require Import ZArith Ascii.

Local Open Scope string_scope.

(** ** Go values *)

(** Go's [error] values as this file builds them with [github.com/pkg/errors];
    [Foreign] stands for an error made by an external library (the
    unstructured converter, the cluster configuration, the Longhorn client).
    A nil [error] is [None : option error]. *)
Inductive error : Type :=
| New (msg : string)
| Errorf (format : string) (args : list string)
| Wrap (cause : error) (msg : string)
| WithStack (cause : error)
| Foreign (msg : string).

(** [fmt.Sprintf] for the one verb this file uses in error messages, [%s],
    with string arguments; arguments left over are dropped. *)
Fixpoint Sprintf (format : string) (args : list string) : string :=
  match format with
  | String "%"%char (String "s"%char rest) =>
      match args with
      | a :: args' => a +:+ Sprintf rest args'
      | [] => "%!s(MISSING)" +:+ Sprintf rest []
      end
  | String c rest => String c (Sprintf rest args)
  | EmptyString => EmptyString
  end.

(** The [Error()] method. *)
Fixpoint Error (e : error) : string :=
  match e with
  | New msg => msg
  | Errorf format args => Sprintf format args
  | Wrap cause msg => msg +:+ ": " +:+ Error cause
  | WithStack cause => Error cause
  | Foreign msg => msg
  end.

(** [rest.Config], [kubernetes.Clientset] and [lhclientset.Clientset] are
    opaque handles here: the plugin only stores them and calls through the
    Longhorn one. *)
Inductive RestConfig : Type := mkRestConfig (host : string).
Inductive K8sClientset : Type := mkK8sClientset (conf : RestConfig).
Inductive LhClientset : Type := mkLhClientset (conf : RestConfig).

(** [longhorn.Snapshot], the custom resource sent to the control plane:
    [ObjectMeta.Name], [Spec.Volume] and [Spec.CreateSnapshot]. *)
Record LhSnapshot : Type := mkLhSnapshot {
  cr_Name : string;
  cr_Volume : string;
  cr_CreateSnapshot : bool
}.

(** [v1.ResourceStorage] *)
Definition ResourceStorage : string := "storage".

Section Plugin.

(** [resource.Quantity] with its zero value, the fields of
    [v1.PersistentVolume] this plugin never looks at, and the loosely typed
    [runtime.Unstructured] with [runtime.DefaultUnstructuredConverter]
    belong to Kubernetes libraries; they are parameters. *)
Context {Quantity PVOther Unstructured : Type}.
Context (zeroQuantity : Quantity).

(** [v1.PersistentVolume]: [pv.Name] (of the embedded [ObjectMeta]),
    [pv.Spec.StorageClassName], [pv.Spec.Capacity]. *)
Record PersistentVolume : Type := mkPV {
  Name : string;
  StorageClassName : string;
  Capacity : gmap string Quantity;
  pv_other : PVOther
}.

Definition setName (pv : PersistentVolume) (n : string) : PersistentVolume :=
  {| Name := n; StorageClassName := StorageClassName pv;
     Capacity := Capacity pv; pv_other := pv_other pv |}.

Context (FromUnstructured : Unstructured → error + PersistentVolume).
Context (ToUnstructured : PersistentVolume → error + Unstructured).

(** ** The plugin's data *)

(** Volume keeps track of volumes created by this plugin *)
Record Volume : Type := mkVolume {
  volName : string;
  volAZ : string;
  storageClass : string;
  dataEngine : string;
  size : Quantity
}.

(** Snapshot keeps track of snapshots created by this plugin.  Its Go fields
    are [volName], [volAZ] and [tags]; the first two carry a prefix here
    because [Volume] has fields of the same names.  [tags] is the caller's
    map (nil reads as the empty map). *)
Record Snapshot : Type := mkSnapshot {
  snap_volName : string;
  snap_volAZ : string;
  tags : gmap string string
}.

(** VolumeSnapshotter is a plugin for containing state for the blockstore.
    A Go map or pointer field that is nil is [None]; the maps hold pointers
    to records that are never written after they are stored, so they hold
    the records themselves here.  [config] is only ever stored, so its nil
    value is the empty map.  The embedded [logrus.FieldLogger] is the
    [logged] trace of the [World]. *)
Record VolumeSnapshotter : Type := mkVolumeSnapshotter {
  config : gmap string string;
  volumes : option (gmap string Volume);
  snapshots : option (gmap string Snapshot);
  k8sClient : option K8sClientset;
  lhClient : option LhClientset
}.

(** NewVolumeSnapshotter instantiates a VolumeSnapshotter: every field but
    the logger has its zero value. *)
Definition NewVolumeSnapshotter : VolumeSnapshotter :=
  {| config := ∅; volumes := None; snapshots := None;
     k8sClient := None; lhClient := None |}.

(** Reading a Go map, nil or not: [v, ok := m[k]]. *)
Definition index {V : Type} (m : option (gmap string V)) (k : string) : option V :=
  m ≫= (.!! k).

(** ** The world outside the plugin *)

Inductive Level : Type := InfoLevel | ErrorLevel.

Inductive LogArg : Type :=
| LString (s : string)
| LInt64 (z : Z)
| LMap (m : gmap string string)
| LObject (u : Unstructured)
| LError (e : error).

Record LogEntry : Type := mkLogEntry {
  log_level : Level;
  log_format : string;
  log_args : list LogArg
}.

(** One request sent to the Longhorn control plane:
    [Snapshots(namespace).Create(ctx, cr, opts)].  [in_flight] is a ghost
    field: the plugin's fields as they stand while the request is out, which
    is what an identity query answered during the call would read. *)
Record Request : Type := mkRequest {
  req_namespace : string;
  req_snapshot : LhSnapshot;
  in_flight : VolumeSnapshotter
}.

(** The environment the methods run in.  The [n]-th call of
    [bsutil.GenerateName(prefix)] returns [genName n prefix]; the [n]-th
    [Create] request is answered by [lhAnswer n namespace cr] (nil error on
    success); [issued] and [logged] are the requests sent and the lines
    logged so far, most recent first. *)
Record World : Type := mkWorld {
  genName : nat → string → string;
  drawn : nat;
  lhAnswer : nat → string → LhSnapshot → option error;
  issued : list Request;
  logged : list LogEntry;
  inClusterConfig : error + RestConfig;
  k8sNewForConfig : RestConfig → error + K8sClientset;
  lhNewForConfig : RestConfig → error + LhClientset
}.

(** ** Programs *)

(** The primitive actions, indexed by the type of what they give back. *)
Inductive Prim : Type → Type :=
| Logf (lvl : Level) (format : string) (args : list LogArg) : Prim unit
| SetConfig (c : gmap string string) : Prim unit
| VolumesIsNil : Prim bool
| MakeVolumes : Prim unit
| SnapshotsIsNil : Prim bool
| MakeSnapshots : Prim unit
| SetK8sClient (c : K8sClientset) : Prim unit
| SetLhClient (c : LhClientset) : Prim unit
| ReadVolume (k : string) : Prim (option Volume)
| WriteVolume (k : string) (v : Volume) : Prim unit
| ReadSnapshot (k : string) : Prim (option Snapshot)
| WriteSnapshot (k : string) (s : Snapshot) : Prim unit
| GenerateName (prefix : string) : Prim string
| InClusterConfig : Prim (error + RestConfig)
| K8sNewForConfig (conf : RestConfig) : Prim (error + K8sClientset)
| LhNewForConfig (conf : RestConfig) : Prim (error + LhClientset)
| LhCreate (namespace : string) (cr : LhSnapshot) : Prim (option error).

(** A method body: a tree of primitive actions.  [Panic] is a Go run-time
    panic, [Spin] a loop that has not left yet when the fuel is spent. *)
Inductive Prog (A : Type) : Type :=
| Ret (a : A)
| Panic (msg : string)
| Spin
| Vis {X : Type} (e : Prim X) (k : X → Prog A).

#[global] Arguments Ret {A} a.
#[global] Arguments Panic {A} msg.
#[global] Arguments Spin {A}.
#[global] Arguments Vis {A X} e k.

Fixpoint bind {A B : Type} (m : Prog A) (f : A → Prog B) : Prog B :=
  match m with
  | Ret a => f a
  | Panic msg => Panic msg
  | Spin => Spin
  | Vis e k => Vis e (λ x, bind (k x) f)
  end.

Definition trigger {X : Type} (e : Prim X) : Prog X := Vis e Ret.

Notation "x <- m ;; k" := (bind m (λ x, k))
  (at level 100, m at next level, right associativity).
Notation "m ;;; k" := (bind m (λ _, k))
  (at level 100, right associativity).

Definition Infof (format : string) (args : list LogArg) : Prog unit :=
  trigger (Logf InfoLevel format args).
Definition Errorlogf (format : string) (args : list LogArg) : Prog unit :=
  trigger (Logf ErrorLevel format args).

(** ** Sequential semantics *)

Inductive Res (A : Type) : Type :=
| Val (a : A)
| Panicked (msg : string)
| Spinning.

#[global] Arguments Val {A} a.
#[global] Arguments Panicked {A} msg.
#[global] Arguments Spinning {A}.

Definition log_line (lvl : Level) (format : string) (args : list LogArg)
    (w : World) : World :=
  {| genName := genName w; drawn := drawn w; lhAnswer := lhAnswer w;
     issued := issued w;
     logged := mkLogEntry lvl format args :: logged w;
     inClusterConfig := inClusterConfig w;
     k8sNewForConfig := k8sNewForConfig w;
     lhNewForConfig := lhNewForConfig w |}.

Definition draw (w : World) : World :=
  {| genName := genName w; drawn := S (drawn w); lhAnswer := lhAnswer w;
     issued := issued w; logged := logged w;
     inClusterConfig := inClusterConfig w;
     k8sNewForConfig := k8sNewForConfig w;
     lhNewForConfig := lhNewForConfig w |}.

Definition send (r : Request) (w : World) : World :=
  {| genName := genName w; drawn := drawn w; lhAnswer := lhAnswer w;
     issued := r :: issued w; logged := logged w;
     inClusterConfig := inClusterConfig w;
     k8sNewForConfig := k8sNewForConfig w;
     lhNewForConfig := lhNewForConfig w |}.

Definition with_config (c : gmap string string) (p : VolumeSnapshotter) : VolumeSnapshotter :=
  {| config := c; volumes := volumes p; snapshots := snapshots p;
     k8sClient := k8sClient p; lhClient := lhClient p |}.
Definition with_volumes m (p : VolumeSnapshotter) : VolumeSnapshotter :=
  {| config := config p; volumes := m; snapshots := snapshots p;
     k8sClient := k8sClient p; lhClient := lhClient p |}.
Definition with_snapshots m (p : VolumeSnapshotter) : VolumeSnapshotter :=
  {| config := config p; volumes := volumes p; snapshots := m;
     k8sClient := k8sClient p; lhClient := lhClient p |}.
Definition with_k8sClient c (p : VolumeSnapshotter) : VolumeSnapshotter :=
  {| config := config p; volumes := volumes p; snapshots := snapshots p;
     k8sClient := c; lhClient := lhClient p |}.
Definition with_lhClient c (p : VolumeSnapshotter) : VolumeSnapshotter :=
  {| config := config p; volumes := volumes p; snapshots := snapshots p;
     k8sClient := k8sClient p; lhClient := c |}.

Definition nil_map_panic : string := "assignment to entry in nil map".
Definition nil_deref_panic : string :=
  "runtime error: invalid memory address or nil pointer dereference".

(** What one primitive action does to the plugin and to the world.  A write
    into a nil map and a call through a nil client panic, as in Go. *)
Definition handle {X : Type} (e : Prim X) (p : VolumeSnapshotter) (w : World)
    : Res X * VolumeSnapshotter * World :=
  match e in Prim X return Res X * VolumeSnapshotter * World with
  | Logf lvl format args => (Val (), p, log_line lvl format args w)
  | SetConfig c => (Val (), with_config c p, w)
  | VolumesIsNil => (Val (bool_decide (volumes p = None)), p, w)
  | MakeVolumes => (Val (), with_volumes (Some ∅) p, w)
  | SnapshotsIsNil => (Val (bool_decide (snapshots p = None)), p, w)
  | MakeSnapshots => (Val (), with_snapshots (Some ∅) p, w)
  | SetK8sClient c => (Val (), with_k8sClient (Some c) p, w)
  | SetLhClient c => (Val (), with_lhClient (Some c) p, w)
  | ReadVolume k => (Val (index (volumes p) k), p, w)
  | WriteVolume k v =>
      match volumes p with
      | Some m => (Val (), with_volumes (Some (<[k:=v]> m)) p, w)
      | None => (Panicked nil_map_panic, p, w)
      end
  | ReadSnapshot k => (Val (index (snapshots p) k), p, w)
  | WriteSnapshot k s =>
      match snapshots p with
      | Some m => (Val (), with_snapshots (Some (<[k:=s]> m)) p, w)
      | None => (Panicked nil_map_panic, p, w)
      end
  | GenerateName prefix => (Val (genName w (drawn w) prefix), p, draw w)
  | InClusterConfig => (Val (inClusterConfig w), p, w)
  | K8sNewForConfig conf => (Val (k8sNewForConfig w conf), p, w)
  | LhNewForConfig conf => (Val (lhNewForConfig w conf), p, w)
  | LhCreate namespace cr =>
      match lhClient p with
      | Some _ =>
          (Val (lhAnswer w (length (issued w)) namespace cr), p,
           send (mkRequest namespace cr p) w)
      | None => (Panicked nil_deref_panic, p, w)
      end
  end.

Fixpoint exec {A : Type} (m : Prog A) (p : VolumeSnapshotter) (w : World)
    : Res A * VolumeSnapshotter * World :=
  match m with
  | Ret a => (Val a, p, w)
  | Panic msg => (Panicked msg, p, w)
  | Spin => (Spinning, p, w)
  | Vis e k =>
      match handle e p w with
      | (Val x, p', w') => exec (k x) p' w'
      | (Panicked msg, p', w') => (Panicked msg, p', w')
      | (Spinning, p', w') => (Spinning, p', w')
      end
  end.

(** ** The methods *)

(** Init prepares the VolumeSnapshotter for usage using the provided map of
    configuration key-value pairs.  It can be called several times: the maps
    are made only when they are nil. *)
Definition Init (config : gmap string string) : Prog (option error) :=
  Infof "Init called" [LMap config] ;;;
  trigger (SetConfig config) ;;;
  isnil <- trigger VolumesIsNil ;;
  (if isnil : bool then trigger MakeVolumes else Ret ()) ;;;
  isnil <- trigger SnapshotsIsNil ;;
  (if isnil : bool then trigger MakeSnapshots else Ret ()) ;;;
  conf <- trigger InClusterConfig ;;
  match conf with
  | inl err =>
      Errorlogf "Failed to get cluster config : %s" [LString (Error err)] ;;;
      Ret (Some (New "error fetching cluster config"))
  | inr conf =>
      k8sClientset <- trigger (K8sNewForConfig conf) ;;
      match k8sClientset with
      | inl err =>
          Errorlogf "Error creating k8s clientset : %s" [LString (Error err)] ;;;
          Ret (Some (Wrap err "failed to create k8s client"))
      | inr k8sClientset =>
          trigger (SetK8sClient k8sClientset) ;;;
          lhClient <- trigger (LhNewForConfig conf) ;;
          match lhClient with
          | inl err =>
              Errorlogf "Failed to create Longhorn client. %s" [LError err] ;;;
              Ret (Some (Wrap err "failed to create longhorn client"))
          | inr lhClient =>
              trigger (SetLhClient lhClient) ;;;
              Ret None
          end
      end
  end.

(** CreateVolumeFromSnapshot: [*iops] is evaluated as an argument of the
    first statement, the log call, so a nil [iops] panics before anything is
    logged. *)
Definition CreateVolumeFromSnapshot (snapshotID volumeType volumeAZ : string)
    (iops : option Z) : Prog (string * option error) :=
  match iops with
  | None => Panic nil_deref_panic
  | Some i =>
      Infof "CreateVolumeFromSnapshot called"
        [LString snapshotID; LString volumeType; LString volumeAZ; LInt64 i] ;;;
      let volumeID := "" in
      Ret (volumeID, None)
  end.

(** GetVolumeInfo returns the type and IOPS of the volume. *)
Definition GetVolumeInfo (volumeID volumeAZ : string)
    : Prog (string * option Z * option error) :=
  Infof "GetVolumeInfo called" [LString volumeID; LString volumeAZ] ;;;
  Ret ("longhorn-volume", None, None).

(** IsVolumeReady Check if the volume is ready. *)
Definition IsVolumeReady (volumeID volumeAZ : string)
    : Prog (bool * option error) :=
  Infof "IsVolumeReady called" [LString volumeID; LString volumeAZ] ;;;
  Ret (true, None).

(** The [for] loop of CreateSnapshot: draw names until one is not a key of
    [p.snapshots].  [fuel] bounds the number of draws. *)
Fixpoint CreateSnapshot_loop (fuel : nat) : Prog string :=
  match fuel with
  | O => Spin
  | S fuel' =>
      name <- trigger (GenerateName "snap") ;;
      let snapshotID := "velero-" +:+ name in
      Infof "CreateSnapshot trying to create snapshot" [LString snapshotID] ;;;
      found <- trigger (ReadSnapshot snapshotID) ;;
      match found with
      | Some _ => CreateSnapshot_loop fuel'
      | None => Ret snapshotID
      end
  end.

(** CreateSnapshot creates a snapshot of the specified volume, and applies
    any provided set of tags to the snapshot. *)
Definition CreateSnapshot (fuel : nat) (volumeID volumeAZ : string)
    (tags : gmap string string) : Prog (string * option error) :=
  Infof "CreateSnapshot called"
    [LString volumeID; LString volumeAZ; LMap tags] ;;;
  snapshotID <- CreateSnapshot_loop fuel ;;
  Infof "Create snapshot %v for volume %v"
    [LString snapshotID; LString volumeID] ;;;
  (* Remember the "original" volume, only required for the first time. *)
  found <- trigger (ReadVolume volumeID) ;;
  match found with
  | None =>
      trigger (WriteVolume volumeID
        {| volName := volumeID; volAZ := volumeAZ; storageClass := "";
           dataEngine := "v1"; size := zeroQuantity |})
  | Some _ => Ret ()
  end ;;;
  (* Remember the snapshot *)
  trigger (WriteSnapshot snapshotID
    {| snap_volName := volumeID; snap_volAZ := volumeAZ; tags := tags |}) ;;;
  let snapshotCR :=
    {| cr_Name := snapshotID; cr_Volume := volumeID;
       cr_CreateSnapshot := true |} in
  Infof "Creating snapshot %v for volume %v"
    [LString snapshotID; LString volumeID] ;;;
  err <- trigger (LhCreate "longhorn-system" snapshotCR) ;;
  match err with
  | Some err => Ret ("", Some err)
  | None =>
      Infof "CreateSnapshot returning" [LString snapshotID] ;;;
      Ret (snapshotID, None)
  end.

(** DeleteSnapshot deletes the specified volume snapshot. *)
Definition DeleteSnapshot (snapshotID : string) : Prog (option error) :=
  Infof "DeleteSnapshot called" [LString snapshotID] ;;;
  Ret None.

(** GetVolumeID returns the specific identifier for the PersistentVolume. *)
Definition GetVolumeID (unstructuredPV : Unstructured)
    : Prog (string * option error) :=
  Infof "GetVolumeID called" [LObject unstructuredPV] ;;;
  match FromUnstructured unstructuredPV with
  | inl err => Ret ("", Some (WithStack err))
  | inr pv =>
      if bool_decide (Name pv = "") || bool_decide (StorageClassName pv = "")
      then Ret ("", None)
      else
        found <- trigger (ReadVolume (Name pv)) ;;
        match found with
        | None =>
            trigger (WriteVolume (Name pv)
              {| volName := Name pv; volAZ := "";
                 storageClass := StorageClassName pv;
                 size := default zeroQuantity (Capacity pv !! ResourceStorage);
                 dataEngine := "v1" |})
        | Some _ => Ret ()
        end ;;;
        Ret (Name pv, None)
  end.

(** SetVolumeID sets the specific identifier for the PersistentVolume.  The
    result is a new object; the one passed in is only read. *)
Definition SetVolumeID (unstructuredPV : Unstructured) (volumeID : string)
    : Prog (option Unstructured * option error) :=
  Infof "SetVolumeID called" [LObject unstructuredPV; LString volumeID] ;;;
  match FromUnstructured unstructuredPV with
  | inl err => Ret (None, Some (WithStack err))
  | inr pv =>
      found <- trigger (ReadVolume volumeID) ;;
      match found with
      | None =>
          Ret (None,
               Some (Errorf "volume %s does not exist in the group" [volumeID]))
      | Some vol =>
          let pv := setName pv (volName vol) in
          match ToUnstructured pv with
          | inl err => Ret (None, Some (WithStack err))
          | inr res => Ret (Some res, None)
          end
      end
  end.

(** ** Sessions *)

(** [n] calls of CreateSnapshot, one after the other. *)
Fixpoint CreateSnapshots (fuel : nat)
    (reqs : list (string * string * gmap string string))
    : Prog (list (string * option error)) :=
  match reqs with
  | [] => Ret []
  | (volumeID, volumeAZ, tags) :: reqs' =>
      r <- CreateSnapshot fuel volumeID volumeAZ tags ;;
      rs <- CreateSnapshots fuel reqs' ;;
      Ret (r :: rs)
  end.

(** One call of a method, as the orchestrator makes it. *)
Inductive Call : Type :=
| CallInit (config : gmap string string)
| CallCreateVolumeFromSnapshot (snapshotID volumeType volumeAZ : string)
    (iops : option Z)
| CallGetVolumeInfo (volumeID volumeAZ : string)
| CallIsVolumeReady (volumeID volumeAZ : string)
| CallCreateSnapshot (fuel : nat) (volumeID volumeAZ : string)
    (tags : gmap string string)
| CallDeleteSnapshot (snapshotID : string)
| CallGetVolumeID (unstructuredPV : Unstructured)
| CallSetVolumeID (unstructuredPV : Unstructured) (volumeID : string).

Definition perform (c : Call) : Prog unit :=
  match c with
  | CallInit config => Init config ;;; Ret ()
  | CallCreateVolumeFromSnapshot snapshotID volumeType volumeAZ iops =>
      CreateVolumeFromSnapshot snapshotID volumeType volumeAZ iops ;;; Ret ()
  | CallGetVolumeInfo volumeID volumeAZ =>
      GetVolumeInfo volumeID volumeAZ ;;; Ret ()
  | CallIsVolumeReady volumeID volumeAZ =>
      IsVolumeReady volumeID volumeAZ ;;; Ret ()
  | CallCreateSnapshot fuel volumeID volumeAZ tags =>
      CreateSnapshot fuel volumeID volumeAZ tags ;;; Ret ()
  | CallDeleteSnapshot snapshotID => DeleteSnapshot snapshotID ;;; Ret ()
  | CallGetVolumeID unstructuredPV => GetVolumeID unstructuredPV ;;; Ret ()
  | CallSetVolumeID unstructuredPV volumeID =>
      SetVolumeID unstructuredPV volumeID ;;; Ret ()
  end.

(** The plugin and the world a call leaves behind, however it ends (a
    panic inside a plugin call is recovered by the plugin server, which goes
    on serving with the fields as they are). *)
Definition after (c : Call) (pw : VolumeSnapshotter * World)
    : VolumeSnapshotter * World :=
  let '(_, p', w') := exec (perform c) pw.1 pw.2 in (p', w').

Definition session (cs : list Call) (pw : VolumeSnapshotter * World)
    : VolumeSnapshotter * World :=
  foldl (λ pw c, after c pw) pw cs.

(** A plugin some session leads to from [NewVolumeSnapshotter]. *)
Definition reachable (p : VolumeSnapshotter) : Prop :=
  ∃ (cs : list Call) (w0 : World), (session cs (NewVolumeSnapshotter, w0)).1 = p.

(** Every Volume record is stored under its own name. *)
Definition keyed (p : VolumeSnapshotter) : Prop :=
  ∀ (k : string) (v : Volume), index (volumes p) k = Some v → volName v = k.

(** ** Interleaved semantics *)

(** One primitive action of a program; a program that has ended stays as it
    is. *)
Definition step {A : Type} (m : Prog A) (p : VolumeSnapshotter) (w : World)
    : Prog A * VolumeSnapshotter * World :=
  match m with
  | Vis e k =>
      match handle e p w with
      | (Val x, p', w') => (k x, p', w')
      | (Panicked msg, p', w') => (Panic msg, p', w')
      | (Spinning, p', w') => (Spin, p', w')
      end
  | _ => (m, p, w)
  end.

Definition ended {A : Type} (m : Prog A) : bool :=
  match m with
  | Vis _ _ => false
  | _ => true
  end.

(** Two calls on one plugin with no synchronisation between them (the
    struct has no lock): the schedule says whose primitive action comes
    next, [true] for the first call and [false] for the second. *)
Fixpoint race {A B : Type} (schedule : list bool) (m1 : Prog A) (m2 : Prog B)
    (p : VolumeSnapshotter) (w : World)
    : Prog A * Prog B * VolumeSnapshotter * World :=
  match schedule with
  | [] => (m1, m2, p, w)
  | true :: schedule' =>
      let '(m1', p', w') := step m1 p w in race schedule' m1' m2 p' w'
  | false :: schedule' =>
      let '(m2', p', w') := step m2 p w in race schedule' m1 m2' p' w'
  end.

(** The plugin a raced pair of calls has got to. *)
Definition raced {A B : Type} (schedule : list bool) (m1 : Prog A)
    (m2 : Prog B) (p : VolumeSnapshotter) (w : World) : VolumeSnapshotter :=
  (race schedule m1 m2 p w).1.2.

(** The record under [name] is [v] now and after every action the program
    takes from here on its own. *)
Fixpoint keeps (name : string) (v : Volume) {A : Type} (m : Prog A)
    (p : VolumeSnapshotter) (w : World) : Prop :=
  index (volumes p) name = Some v ∧
  match m with
  | Vis e k =>
      match handle e p w with
      | (Val x, p', w') => keeps name v (k x) p' w'
      | (_, p', _) => index (volumes p') name = Some v
      end
  | _ => True
  end.

(** ** Notions used in the statements *)

(** The run of [x <- m ;; f x]: the run of [m], then the run of [f]. *)
Definition then_exec {A B : Type} (r : Res A * VolumeSnapshotter * World)
    (f : A → Prog B) : Res B * VolumeSnapshotter * World :=
  match r with
  | (Val a, p', w') => exec (f a) p' w'
  | (Panicked msg, p', w') => (Panicked msg, p', w')
  | (Spinning, p', w') => (Spinning, p', w')
  end.

(** The name the loop tries at its [n]-th draw. *)
Definition candidate (w : World) (n : nat) : string :=
  "velero-" +:+ genName w n "snap".

(** Two worlds that differ at most in the lines logged and the number of
    names drawn. *)
Definition same_outside (w w' : World) : Prop :=
  genName w' = genName w ∧ lhAnswer w' = lhAnswer w ∧ issued w' = issued w ∧
  inClusterConfig w' = inClusterConfig w ∧
  k8sNewForConfig w' = k8sNewForConfig w ∧
  lhNewForConfig w' = lhNewForConfig w.

(** The plugin after a call of [Init]: both maps are made and the Longhorn
    client is there. *)
Definition initialised (p : VolumeSnapshotter) : Prop :=
  volumes p ≠ None ∧ snapshots p ≠ None ∧ lhClient p ≠ None.

(** [if _, exists := m[k]; !exists { m[k] = v }] on a map that is not nil. *)
Definition remember (k : string) (v : Volume) (m : gmap string Volume)
    : gmap string Volume :=
  match m !! k with
  | Some _ => m
  | None => <[k:=v]> m
  end.

(** ** Notions used for whole sessions *)

(** Every Volume record is stored under its own name and carries the data
    engine the plugin gives to all of them. *)
Definition volumes_sound (p : VolumeSnapshotter) : Prop :=
  ∀ (k : string) (v : Volume),
    index (volumes p) k = Some v → volName v = k ∧ dataEngine v = "v1".

(** Every Snapshot record is stored under a name the plugin made and is of a
    volume that is registered. *)
Definition snapshots_sound (p : VolumeSnapshotter) : Prop :=
  ∀ (id : string) (s : Snapshot),
    index (snapshots p) id = Some s →
    (∃ name, id = "velero-" +:+ name) ∧
    is_Some (index (volumes p) (snap_volName s)).

(** The name a request asks the control plane to create. *)
Definition requestName (req : Request) : string := cr_Name (req_snapshot req).

(** The requests sent so far all went to the Longhorn namespace, asked for a
    snapshot to be taken, carry names that are pairwise different, and each
    has its record in [p.snapshots], for the volume the request names. *)
Definition tracked (p : VolumeSnapshotter) (w : World) : Prop :=
  NoDup (requestName <$> issued w) ∧
  ∀ req : Request, req ∈ issued w →
    req_namespace req = "longhorn-system" ∧
    cr_CreateSnapshot (req_snapshot req) = true ∧
    ∃ s, index (snapshots p) (requestName req) = Some s ∧
         snap_volName s = cr_Volume (req_snapshot req).

Definition isInit (c : Call) : bool :=
  match c with
  | CallInit _ => true
  | _ => false
  end.

Definition isCreateSnapshot (c : Call) : bool :=
  match c with
  | CallCreateSnapshot _ _ _ _ => true
  | _ => false
  end.

(** The calls of the methods that write neither map. *)
Definition onlyReads (c : Call) : bool :=
  match c with
  | CallInit _ | CallCreateSnapshot _ _ _ _ | CallGetVolumeID _ => false
  | _ => true
  end.

End Plugin.

(** ** A concrete setting to run the methods in *)

Module Demo.

(** A flat attribute bag in the place of [runtime.Unstructured], with a
    converter that rejects a field of the wrong kind. *)
Inductive attr : Type := Str (s : string) | Num (z : Z).

Definition bag : Type := list (string * attr).

Fixpoint attrOf (k : string) (b : bag) : option attr :=
  match b with
  | [] => None
  | (k', a) :: b' => if String.eqb k k' then Some a else attrOf k b'
  end.

Definition stringField (k : string) (b : bag) : error + string :=
  match attrOf k b with
  | None => inr ""
  | Some (Str s) => inr s
  | Some (Num _) => inl (Foreign ("cannot convert " +:+ k +:+ " to string"))
  end.

Definition FromBag (b : bag) : error + @PersistentVolume Z unit :=
  match stringField "metadata.name" b with
  | inl err => inl err
  | inr name =>
      match stringField "spec.storageClassName" b with
      | inl err => inl err
      | inr class =>
          match attrOf "spec.capacity.storage" b with
          | Some (Str _) => inl (Foreign "cannot convert quantity")
          | Some (Num z) => inr (mkPV name class {[ResourceStorage := z]} ())
          | None => inr (mkPV name class ∅ ())
          end
      end
  end.

Definition ToBag (pv : @PersistentVolume Z unit) : error + bag :=
  inr (("metadata.name", Str (Name pv)) ::
       ("spec.storageClassName", Str (StorageClassName pv)) ::
       match Capacity pv !! ResourceStorage with
       | Some z => [("spec.capacity.storage", Num z)]
       | None => []
       end).

(** The descriptor of the specification's examples: name [pv-1],
    storage class [fast], capacity 10Gi. *)
Definition pv1 : bag :=
  [("metadata.name", Str "pv-1"); ("spec.storageClassName", Str "fast");
   ("spec.capacity.storage", Num 10737418240%Z)].

(** A descriptor with no storage class. *)
Definition noClass : bag := [("metadata.name", Str "pv-2")].

(** A descriptor the converter rejects: its name is a number. *)
Definition malformed : bag := [("metadata.name", Num 7%Z)].

(** A name generator whose first two draws collide, and a control plane that
    accepts every request. *)
Definition suffix (n : nat) : string :=
  match n with
  | 0 | 1 => "aa"
  | _ => String (ascii_of_nat (96 + n)) "b"
  end.

Definition world0 : @World Z bag :=
  {| genName := λ n prefix, prefix +:+ "-" +:+ suffix n;
     drawn := 0;
     lhAnswer := λ _ _ _, None;
     issued := [];
     logged := [];
     inClusterConfig := inr (mkRestConfig "https://kubernetes.default.svc");
     k8sNewForConfig := λ conf, inr (mkK8sClientset conf);
     lhNewForConfig := λ conf, inr (mkLhClientset conf) |}.

(** The same with a control plane that refuses every request. *)
Definition refusing : @World Z bag :=
  {| genName := genName world0;
     drawn := 0;
     lhAnswer := λ _ _ _, Some (Foreign "admission webhook denied the request");
     issued := [];
     logged := [];
     inClusterConfig := inClusterConfig world0;
     k8sNewForConfig := k8sNewForConfig world0;
     lhNewForConfig := lhNewForConfig world0 |}.

(** [world0] after its two colliding draws: the names to come are all
    different. *)
Definition world2 : @World Z bag := draw (draw world0).

(** The plugin after [NewVolumeSnapshotter] and one [Init]. *)
Definition plugin0 : @VolumeSnapshotter Z :=
  (exec (Init ∅) NewVolumeSnapshotter world0).1.2.

(** The plugin with [pv-1] already registered from its descriptor. *)
Definition plugin1 : @VolumeSnapshotter Z :=
  (exec (GetVolumeID 0%Z FromBag pv1) plugin0 world0).1.2.

(** Two CreateSnapshot calls on the same volume from different zones. *)
Definition callA : Prog (string * option error) :=
  CreateSnapshot (Unstructured := bag) 0%Z 5 "pv-1" "zone-a" ∅.
Definition callB : Prog (string * option error) :=
  CreateSnapshot (Unstructured := bag) 0%Z 5 "pv-1" "zone-b" ∅.

(** What the first call gives when the control plane accepts and when it
    refuses. *)
Definition accepted := exec callA plugin0 world0.
Definition denied := exec callA plugin0 refusing.

(** Three calls in a row, two of them for the same volume. *)
Definition threeCalls : list (string * string * gmap string string) :=
  [("pv-1", "zone-a", {["k" := "v"]}); ("pv-1", "zone-a", ∅);
   ("pv-9", "zone-b", ∅)].

(** What [pv1] converts to. *)
Definition pv1Volume : @PersistentVolume Z unit :=
  mkPV "pv-1" "fast" {[ResourceStorage := 10737418240%Z]} ().

(** The same name under another storage class. *)
Definition pv1Slow : bag :=
  [("metadata.name", Str "pv-1"); ("spec.storageClassName", Str "slow")].

(** A schedule that lets each of two calls read [p.volumes] before either
    writes it: six actions of the first call (up to its read), six of the
    second, then the rest of the first and the rest of the second. *)
Definition bothReadFirst : list bool :=
  (replicate 6 true ++ replicate 6 false)%list.
Definition thenBothWrite : list bool :=
  (replicate 5 true ++ replicate 5 false)%list.

(** A generator that never repeats itself: the [n]-th name ends in [n]
    strokes. *)
Fixpoint tally (n : nat) : string :=
  match n with
  | O => ""
  | S n' => String "i" (tally n')
  end.

Definition counting : @World Z bag :=
  {| genName := λ n prefix, prefix +:+ "-" +:+ tally n; drawn := 0;
     lhAnswer := lhAnswer world0; issued := []; logged := [];
     inClusterConfig := inClusterConfig world0;
     k8sNewForConfig := k8sNewForConfig world0;
     lhNewForConfig := lhNewForConfig world0 |}.

(** Outside a cluster there is no configuration to find. *)
Definition outsideCluster : @World Z bag :=
  {| genName := genName world0; drawn := 0; lhAnswer := lhAnswer world0;
     issued := []; logged := [];
     inClusterConfig := inl (Foreign "unable to load in-cluster configuration");
     k8sNewForConfig := k8sNewForConfig world0;
     lhNewForConfig := lhNewForConfig world0 |}.

(** A cluster in which no Kubernetes client can be built. *)
Definition noKubernetes : @World Z bag :=
  {| genName := genName world0; drawn := 0; lhAnswer := lhAnswer world0;
     issued := []; logged := [];
     inClusterConfig := inClusterConfig world0;
     k8sNewForConfig := λ _, inl (Foreign "invalid configuration");
     lhNewForConfig := lhNewForConfig world0 |}.

(** A cluster in which the Longhorn client cannot be built. *)
Definition noLonghorn : @World Z bag :=
  {| genName := genName world0; drawn := 0; lhAnswer := lhAnswer world0;
     issued := []; logged := [];
     inClusterConfig := inClusterConfig world0;
     k8sNewForConfig := k8sNewForConfig world0;
     lhNewForConfig := λ _, inl (Foreign "no Longhorn API") |}.

(** The plugin after an Init that failed on the Longhorn client. *)
Definition halfInitialised : @VolumeSnapshotter Z :=
  (exec (Init ∅) NewVolumeSnapshotter noLonghorn).1.2.

(** A generator that gives the same name at every draw. *)
Definition repeating : @World Z bag :=
  {| genName := λ _ prefix, prefix +:+ "-aa"; drawn := 0;
     lhAnswer := lhAnswer world0; issued := []; logged := [];
     inClusterConfig := inClusterConfig world0;
     k8sNewForConfig := k8sNewForConfig world0;
     lhNewForConfig := lhNewForConfig world0 |}.

(** A converter back that always fails. *)
Definition ToNothing (pv : @PersistentVolume Z unit) : error + bag :=
  inl (Foreign "cannot convert back").

(** Calls that write neither map. *)
Definition readingCalls : list (@Call bag) :=
  [CallDeleteSnapshot "velero-snap-aa"; CallGetVolumeInfo "pv-1" "zone-a";
   CallIsVolumeReady "pv-7" ""; CallSetVolumeID pv1 "pv-1";
   CallSetVolumeID malformed "nope";
   CallCreateVolumeFromSnapshot "velero-snap-aa" "longhorn-volume" "" None].

(** A session with three CreateSnapshot calls among other calls. *)
Definition busySession : list (@Call bag) :=
  [CallCreateSnapshot 5 "pv-1" "zone-a" ∅; CallGetVolumeID pv1;
   CallDeleteSnapshot "velero-snap-aa"; CallCreateSnapshot 5 "pv-1" "zone-b" ∅;
   CallInit ∅; CallCreateSnapshot 5 "pv-9" "" ∅].

End Demo.

(** ** Reasoning about runs *)

Section Facts.

Context {Quantity PVOther Unstructured : Type}.
Context (zeroQuantity : Quantity).
Context (FromUnstructured : Unstructured → error + @PersistentVolume Quantity PVOther).
Context (ToUnstructured : @PersistentVolume Quantity PVOther → error + Unstructured).

Local Abbreviation VolumeSnapshotter := (@VolumeSnapshotter Quantity).
Local Abbreviation World := (@World Quantity Unstructured).
Local Abbreviation Prog := (@Prog Quantity Unstructured).
Local Abbreviation Call := (@Call Unstructured).
Local Abbreviation CreateSnapshot := (CreateSnapshot zeroQuantity).
Local Abbreviation CreateSnapshots := (CreateSnapshots zeroQuantity).
Local Abbreviation GetVolumeID := (GetVolumeID zeroQuantity FromUnstructured).
Local Abbreviation SetVolumeID := (SetVolumeID FromUnstructured ToUnstructured).
Local Abbreviation perform := (perform zeroQuantity FromUnstructured ToUnstructured).
Local Abbreviation after := (after zeroQuantity FromUnstructured ToUnstructured).
Local Abbreviation session := (session zeroQuantity FromUnstructured ToUnstructured).
Local Abbreviation reachable := (reachable zeroQuantity FromUnstructured ToUnstructured).


Lemma exec_bind {A B : Type} (m : Prog A) (f : A → Prog B) p w :
  exec (bind m f) p w = then_exec (exec m p w) f.
Proof.
  revert p w. induction m as [a|msg| |X e k IH]; intros p w; simpl; try done.
  destruct (handle e p w) as [[[x|msg|] p'] w']; simpl; auto.
Qed.



Lemma same_outside_refl (w : World) : same_outside w w.
Proof. by repeat split. Qed.

Lemma same_outside_trans (w1 w2 w3 : World) :
  same_outside w1 w2 → same_outside w2 w3 → same_outside w1 w3.
Proof.
  unfold same_outside. intros (?&?&?&?&?&?) (?&?&?&?&?&?).
  repeat split; congruence.
Qed.

Lemma same_outside_log lvl format args (w : World) :
  same_outside w (log_line lvl format args w).
Proof. by repeat split. Qed.

Lemma same_outside_draw (w : World) : same_outside w (draw w).
Proof. by repeat split. Qed.

(** The loop leaves the plugin alone and stops at the first draw whose name
    is not a key of [p.snapshots]; while every draw collides it keeps
    going. *)
Lemma CreateSnapshot_loop_spec fuel (p : VolumeSnapshotter) (w : World) :
  match exec (CreateSnapshot_loop fuel) p w with
  | (Val snapshotID, p', w') =>
      p' = p ∧ same_outside w w' ∧
      ∃ k : nat, (k < fuel)%nat ∧
        snapshotID = candidate w (drawn w + k) ∧
        index (snapshots p) snapshotID = None ∧
        (∀ j : nat, (j < k)%nat →
           is_Some (index (snapshots p) (candidate w (drawn w + j)))) ∧
        drawn w' = (drawn w + S k)%nat
  | (Panicked _, _, _) => False
  | (Spinning, p', w') =>
      p' = p ∧ same_outside w w' ∧
      ∀ j : nat, (j < fuel)%nat →
        is_Some (index (snapshots p) (candidate w (drawn w + j)))
  end.
Proof.
  revert w. induction fuel as [|fuel IH]; intros w.
  - simpl. split; [done|]. split; [apply same_outside_refl|]. lia.
  - cbn [CreateSnapshot_loop bind trigger Infof exec handle].
    set (w1 := log_line _ _ _ (draw w)).
    assert (Hw1 : same_outside w w1) by by repeat split.
    assert (Hc : ∀ n, candidate w1 n = candidate w n) by done.
    assert (Hd : drawn w1 = S (drawn w)) by done.
    fold (candidate w (drawn w)).
    destruct (index (snapshots p) (candidate w (drawn w))) as [s|] eqn:Hfound.
    + specialize (IH w1).
      destruct (exec (CreateSnapshot_loop fuel) p w1) as [[[id|msg|] p'] w'];
        [|done|].
      * destruct IH as (-> & Hw' & k & Hk & -> & Hnone & Hall & Hdr).
        split; [done|]. split; [by eapply same_outside_trans|].
        exists (S k). rewrite Hc, Hd in *.
        replace (drawn w + S k)%nat with (S (drawn w) + k)%nat by lia.
        split_and!; [lia|done|done| |lia].
        intros [|j] Hj.
        { rewrite Nat.add_0_r, Hfound. by eexists. }
        replace (drawn w + S j)%nat with (S (drawn w) + j)%nat by lia.
        rewrite <- Hc. apply Hall. lia.
      * destruct IH as (-> & Hw' & Hall).
        split; [done|]. split; [by eapply same_outside_trans|].
        intros [|j] Hj.
        { rewrite Nat.add_0_r, Hfound. by eexists. }
        replace (drawn w + S j)%nat with (S (drawn w) + j)%nat by lia.
        rewrite <- Hd, <- Hc. apply Hall. lia.
    + cbn [exec]. split; [done|]. split; [done|].
      exists 0%nat. rewrite Nat.add_0_r.
      split_and!; [lia|done|done| |].
      * intros j Hj. lia.
      * rewrite Hd. lia.
Qed.



Lemma remember_lookup k (v : @Volume Quantity) m : remember k v m !! k = Some (default v (m !! k)).
Proof.
  unfold remember. destruct (m !! k) eqn:E; simpl; [done|].
  apply lookup_insert_eq.
Qed.

Lemma remember_keeps k (v : @Volume Quantity) m k' v' :
  m !! k' = Some v' → remember k v m !! k' = Some v'.
Proof.
  intros H. unfold remember. destruct (m !! k) eqn:E; [done|].
  rewrite lookup_insert_ne; [done|congruence].
Qed.

(** The whole run of CreateSnapshot on an initialised plugin: it never
    panics; when the loop leaves at draw [k] both maps are written, one
    request goes out with the plugin as it then is, and the answer decides
    what is returned. *)
Lemma CreateSnapshot_run fuel volumeID volumeAZ tgs
    (p : VolumeSnapshotter) (w : World) vs ss c :
  volumes p = Some vs → snapshots p = Some ss → lhClient p = Some c →
  match exec (CreateSnapshot fuel volumeID volumeAZ tgs) p w with
  | (Val r, p', w') =>
      ∃ k : nat,
        let snapshotID := candidate w (drawn w + k) in
        let snapshotCR := mkLhSnapshot snapshotID volumeID true in
        (k < fuel)%nat ∧
        ss !! snapshotID = None ∧
        (∀ j : nat, (j < k)%nat → is_Some (ss !! candidate w (drawn w + j))) ∧
        p' = with_snapshots
               (Some (<[snapshotID := mkSnapshot volumeID volumeAZ tgs]> ss))
               (with_volumes
                  (Some (remember volumeID
                           (mkVolume volumeID volumeAZ "" "v1" zeroQuantity) vs))
                  p) ∧
        issued w' = mkRequest "longhorn-system" snapshotCR p' :: issued w ∧
        r = match lhAnswer w (length (issued w)) "longhorn-system" snapshotCR with
            | Some err => ("", Some err)
            | None => (snapshotID, None)
            end ∧
        drawn w' = (drawn w + S k)%nat ∧
        genName w' = genName w ∧ lhAnswer w' = lhAnswer w
  | (Panicked _, _, _) => False
  | (Spinning, p', w') =>
      p' = p ∧ same_outside w w' ∧
      ∀ j : nat, (j < fuel)%nat → is_Some (ss !! candidate w (drawn w + j))
  end.
Proof.
  intros Hvs Hss Hc. unfold CreateSnapshot.
  cbn [bind trigger Infof exec handle]. rewrite exec_bind.
  set (w0 := log_line _ _ _ w).
  pose proof (CreateSnapshot_loop_spec fuel p w0) as Hloop.
  destruct (exec (CreateSnapshot_loop fuel) p w0) as [[[id|msg|] p1] w1];
    [|done|].
  - destruct Hloop as (-> & (Hg & Ha & Hi & _) & k & Hk & -> & Hnone & Hall & Hdr).
    change (candidate w0 (drawn w0 + k)) with (candidate w (drawn w + k)) in *.
    rewrite Hss in Hnone, Hall. simpl in Hnone.
    cbn [then_exec bind trigger Infof exec handle].
    unfold index at 1. rewrite Hvs. cbn [mbind option_bind].
    assert (Hrem : ∀ (X : Type) (f : unit → Prog X) w2,
      exec (bind match vs !! volumeID with
                 | Some _ => Ret ()
                 | None => Vis (WriteVolume volumeID
                     (mkVolume volumeID volumeAZ "" "v1" zeroQuantity)) Ret
                 end f) p w2 =
      exec (f ()) (with_volumes (Some (remember volumeID
              (mkVolume volumeID volumeAZ "" "v1" zeroQuantity) vs)) p) w2).
    { intros X f w2. unfold remember.
      destruct (vs !! volumeID) eqn:E; cbn [bind exec handle].
      - destruct p; simpl in *; by subst.
      - by rewrite Hvs. }
    rewrite Hrem. cbn [bind trigger Infof exec handle].
    cbn [snapshots with_volumes]. rewrite Hss.
    change (lhClient (with_snapshots _ (with_volumes _ p))) with (lhClient p).
    rewrite Hc. cbn [issued log_line lhAnswer send].
    rewrite Hi, Ha.
    change (issued w0) with (issued w).
    change (lhAnswer w0) with (lhAnswer w).
    destruct (lhAnswer w _ _ _) as [err|] eqn:Hans; cbn [bind exec handle].
    + exists k. cbn zeta. rewrite Hans.
      split_and!; try done;
        cbn [issued send log_line drawn genName lhAnswer];
        by rewrite ?Hi, ?Hg, ?Ha, ?Hdr.
    + exists k. cbn zeta. rewrite Hans.
      split_and!; try done;
        cbn [issued send log_line drawn genName lhAnswer];
        by rewrite ?Hi, ?Hg, ?Ha, ?Hdr.
  - destruct Hloop as (-> & Hw1 & Hall).
    cbn [then_exec]. split; [done|]. split.
    { eapply same_outside_trans; [apply same_outside_log|exact Hw1]. }
    intros j Hj. specialize (Hall j Hj). by rewrite Hss in Hall.
Qed.

Lemma initialised_inv (p : VolumeSnapshotter) :
  initialised p →
  ∃ vs ss c, volumes p = Some vs ∧ snapshots p = Some ss ∧ lhClient p = Some c.
Proof.
  intros (Hv & Hs & Hc).
  destruct (volumes p) as [vs|], (snapshots p) as [ss|], (lhClient p) as [c|];
    try done.
  by exists vs, ss, c.
Qed.

(** What a returning CreateSnapshot has done, in the terms of the plugin
    before and after. *)
Lemma CreateSnapshot_returns fuel volumeID volumeAZ tgs
    (p : VolumeSnapshotter) (w : World) r p' w' :
  initialised p →
  exec (CreateSnapshot fuel volumeID volumeAZ tgs) p w = (Val r, p', w') →
  ∃ k : nat,
    let snapshotID := candidate w (drawn w + k) in
    let snapshotCR := mkLhSnapshot snapshotID volumeID true in
    (k < fuel)%nat ∧
    index (snapshots p) snapshotID = None ∧
    (∀ j : nat, (j < k)%nat →
       is_Some (index (snapshots p) (candidate w (drawn w + j)))) ∧
    initialised p' ∧
    index (snapshots p') snapshotID = Some (mkSnapshot volumeID volumeAZ tgs) ∧
    (∀ id s, index (snapshots p) id = Some s → index (snapshots p') id = Some s) ∧
    index (volumes p') volumeID =
      Some (default (mkVolume volumeID volumeAZ "" "v1" zeroQuantity)
              (index (volumes p) volumeID)) ∧
    issued w' = mkRequest "longhorn-system" snapshotCR p' :: issued w ∧
    r = match lhAnswer w (length (issued w)) "longhorn-system" snapshotCR with
        | Some err => ("", Some err)
        | None => (snapshotID, None)
        end.
Proof.
  intros Hinit Hrun.
  destruct (initialised_inv p Hinit) as (vs & ss & c & Hvs & Hss & Hc).
  pose proof (CreateSnapshot_run fuel volumeID volumeAZ tgs p w vs ss c
                Hvs Hss Hc) as H.
  rewrite Hrun in H. destruct H as (k & Hk & Hnone & Hall & -> & Hi & Hr & _).
  exists k. cbn zeta. rewrite Hvs, Hss. cbn [index mbind option_bind].
  split_and!; try done.
  - unfold initialised. cbn [volumes snapshots lhClient with_snapshots
      with_volumes]. by rewrite Hc.
  - cbn [snapshots with_snapshots index mbind option_bind].
    apply lookup_insert_eq.
  - intros id s Hid.
    cbn [snapshots with_snapshots index mbind option_bind].
    rewrite lookup_insert_ne; [done|]. intros <-. congruence.
  - cbn [volumes with_snapshots with_volumes index mbind option_bind].
    apply remember_lookup.
Qed.

(** With fuel for one draw more than the collisions ahead, CreateSnapshot
    on an initialised plugin returns. *)
Lemma CreateSnapshot_total fuel volumeID volumeAZ tgs
    (p : VolumeSnapshotter) (w : World) (k : nat) :
  initialised p → (k < fuel)%nat →
  index (snapshots p) (candidate w (drawn w + k)) = None →
  ∃ r p' w', exec (CreateSnapshot fuel volumeID volumeAZ tgs) p w = (Val r, p', w').
Proof.
  intros Hinit Hk Hfree.
  destruct (initialised_inv p Hinit) as (vs & ss & c & Hvs & Hss & Hc).
  pose proof (CreateSnapshot_run fuel volumeID volumeAZ tgs p w vs ss c
                Hvs Hss Hc) as H.
  destruct (exec (CreateSnapshot fuel volumeID volumeAZ tgs) p w)
    as [[[r|msg|] p'] w']; [by eauto|done|].
  destruct H as (_ & _ & Hall). specialize (Hall k Hk).
  rewrite Hss in Hfree. cbn in Hfree. rewrite Hfree in Hall.
  by destruct Hall.
Qed.

(** C1.  CreateSnapshot on an initialised plugin sends exactly one request
    to the control plane, and when that request goes out the snapshot
    record is already in [p.snapshots] (under a name that was not there
    before) and the volume is already in [p.volumes].  Whatever the answer,
    the plugin the call leaves behind is the one the request saw: when the
    request fails the error is returned with the empty name and both
    insertions stay.  And the call does return once a free name is within
    the fuel. *)
Theorem CreateSnapshot_registers_before_request_and_keeps_on_failure
    fuel volumeID volumeAZ tgs (p : VolumeSnapshotter) (w : World) :
  initialised p →
  (∀ r p' w',
     exec (CreateSnapshot fuel volumeID volumeAZ tgs) p w = (Val r, p', w') →
     ∃ (snapshotID : string) (req : Request),
       issued w' = req :: issued w ∧
       req_namespace req = "longhorn-system" ∧
       req_snapshot req = mkLhSnapshot snapshotID volumeID true ∧
       index (snapshots p) snapshotID = None ∧
       index (snapshots (in_flight req)) snapshotID =
         Some (mkSnapshot volumeID volumeAZ tgs) ∧
       index (volumes (in_flight req)) volumeID =
         Some (default (mkVolume volumeID volumeAZ "" "v1" zeroQuantity)
                 (index (volumes p) volumeID)) ∧
       p' = in_flight req ∧
       match lhAnswer w (length (issued w)) "longhorn-system"
               (req_snapshot req) with
       | Some err => r = ("", Some err)
       | None => r = (snapshotID, None)
       end) ∧
  (∀ k : nat, (k < fuel)%nat →
     index (snapshots p) (candidate w (drawn w + k)) = None →
     ∃ r p' w',
       exec (CreateSnapshot fuel volumeID volumeAZ tgs) p w = (Val r, p', w')).
Proof.
  intros Hinit. split.
  - intros r p' w' Hrun.
    destruct (CreateSnapshot_returns _ _ _ _ _ _ _ _ _ Hinit Hrun)
      as (k & Hk & Hnone & _ & _ & Hsnap & _ & Hvol & Hi & Hr).
    eexists _, _. split; [exact Hi|].
    cbn [req_namespace req_snapshot in_flight].
    split_and!; try done.
    by destruct (lhAnswer w _ _ _).
  - intros k Hk Hfree. by eapply CreateSnapshot_total.
Qed.

(** C7.  When CreateSnapshot succeeds, the record stored in [p.snapshots]
    under the name it returns has the volume, the zone and the tags of the
    call; and it does succeed once a free name is within the fuel and the
    control plane accepts. *)
Theorem CreateSnapshot_metadata
    fuel volumeID volumeAZ tgs (p : VolumeSnapshotter) (w : World) :
  initialised p →
  (∀ snapshotID p' w',
     exec (CreateSnapshot fuel volumeID volumeAZ tgs) p w =
       (Val (snapshotID, None), p', w') →
     index (snapshots p') snapshotID =
       Some {| snap_volName := volumeID; snap_volAZ := volumeAZ;
               tags := tgs |}) ∧
  (∀ k : nat, (k < fuel)%nat →
     index (snapshots p) (candidate w (drawn w + k)) = None →
     (∀ n namespace cr, lhAnswer w n namespace cr = None) →
     ∃ snapshotID p' w',
       exec (CreateSnapshot fuel volumeID volumeAZ tgs) p w =
         (Val (snapshotID, None), p', w')).
Proof.
  intros Hinit. split.
  - intros snapshotID p' w' Hrun.
    destruct (CreateSnapshot_returns _ _ _ _ _ _ _ _ _ Hinit Hrun)
      as (k & Hk & Hnone & _ & _ & Hsnap & _ & Hvol & Hi & Hr).
    destruct (lhAnswer w _ _ _); [done|]. by inversion Hr; subst.
  - intros k Hk Hfree Haccepts.
    destruct (CreateSnapshot_total fuel volumeID volumeAZ tgs p w k
                Hinit Hk Hfree) as (r & p' & w' & Hrun).
    destruct (CreateSnapshot_returns _ _ _ _ _ _ _ _ _ Hinit Hrun)
      as (k' & _ & _ & _ & _ & _ & _ & _ & _ & Hr).
    rewrite Haccepts in Hr. subst r. by eexists _, _, _.
Qed.

(** A run of calls one after the other: the plugin stays initialised, no
    snapshot record is lost, and every name returned with a nil error was
    free when the run began and is taken when it ends. *)
Lemma CreateSnapshots_returns fuel reqs :
  ∀ (p : VolumeSnapshotter) (w : World) rs p' w',
  initialised p →
  exec (CreateSnapshots fuel reqs) p w = (Val rs, p', w') →
  initialised p' ∧
  (∀ id s, index (snapshots p) id = Some s → is_Some (index (snapshots p') id)) ∧
  (∀ r, r ∈ rs → r.2 = None →
     index (snapshots p) r.1 = None ∧ is_Some (index (snapshots p') r.1)) ∧
  (Forall (λ r, r.2 = None) rs → NoDup rs.*1).
Proof.
  induction reqs as [|[[volumeID volumeAZ] tgs] reqs IH];
    intros p w rs p' w' Hinit Hrun.
  - cbn in Hrun. inversion Hrun; subst. split; [done|]. split; [|split].
    + intros id s Hid. by eexists.
    + intros r Hr. by apply elem_of_nil in Hr.
    + intros _. constructor.
  - cbn [CreateSnapshots] in Hrun. rewrite exec_bind in Hrun.
    destruct (exec (CreateSnapshot fuel volumeID volumeAZ tgs) p w)
      as [[[r1|msg|] p1] w1] eqn:Hfirst; [|done|done].
    cbn [then_exec] in Hrun. rewrite exec_bind in Hrun.
    destruct (exec (CreateSnapshots fuel reqs) p1 w1)
      as [[[rs1|msg|] p2] w2] eqn:Hrest; [|done|done].
    cbn in Hrun. inversion Hrun; subst; clear Hrun.
    destruct (CreateSnapshot_returns _ _ _ _ _ _ _ _ _ Hinit Hfirst)
      as (k & Hk & Hnone & _ & Hinit1 & Hsnap & Hkeep & _ & _ & Hr).
    destruct (IH _ _ _ _ _ Hinit1 Hrest) as (Hinit2 & Hkeep2 & Hnew & Hnodup).
    split; [done|]. split; [|split].
    + intros id s Hid. apply Hkeep in Hid.
      destruct (index (snapshots p1) id) as [s1|] eqn:E; [|done].
      by eapply Hkeep2.
    + intros r Hin Herr. apply elem_of_cons in Hin as [->|Hin].
      * destruct (lhAnswer w _ _ _); [by subst|]. subst. cbn [fst].
        split; [done|]. by eapply Hkeep2.
      * destruct (Hnew r Hin Herr) as [Hnone1 Hsome]. split; [|done].
        destruct (index (snapshots p) r.1) as [s|] eqn:E; [|done].
        apply Hkeep in E. congruence.
    + intros Hall. apply Forall_cons in Hall as [Herr Hall].
      cbn [fmap list_fmap]. constructor; [|by apply Hnodup].
      intros Hin. apply list_elem_of_fmap in Hin as (r & Heq & Hin).
      eapply Forall_forall in Hall; [|exact Hin].
      destruct (Hnew r Hin Hall) as [Hnone1 _].
      destruct (lhAnswer w _ _ _); [by subst|]. subst. cbn [fst] in Heq.
      rewrite <- Heq in Hnone1. congruence.
Qed.

(** When the request of a call is accepted the call returns the name it
    asked for, the first candidate that was free, with a nil error. *)
Lemma CreateSnapshot_accepted fuel volumeID volumeAZ tgs
    (p : VolumeSnapshotter) (w : World) (k : nat) :
  initialised p → (k < fuel)%nat →
  (∀ j : nat, (j < k)%nat →
     is_Some (index (snapshots p) (candidate w (drawn w + j)))) →
  index (snapshots p) (candidate w (drawn w + k)) = None →
  lhAnswer w (length (issued w)) "longhorn-system"
    (mkLhSnapshot (candidate w (drawn w + k)) volumeID true) = None →
  ∃ p' w',
    exec (CreateSnapshot fuel volumeID volumeAZ tgs) p w =
      (Val (candidate w (drawn w + k), None), p', w').
Proof.
  intros Hinit Hk Htaken Hfree Haccepted.
  destruct (initialised_inv p Hinit) as (vs & ss & c & Hvs & Hss & Hc).
  pose proof (CreateSnapshot_run fuel volumeID volumeAZ tgs p w vs ss c
                Hvs Hss Hc) as H.
  rewrite Hss in Htaken, Hfree. cbn in Htaken, Hfree.
  destruct (exec (CreateSnapshot fuel volumeID volumeAZ tgs) p w)
    as [[[r|msg|] p'] w']; [|done|].
  2:{ destruct H as (_ & _ & Hall). destruct (Hall k Hk). congruence. }
  destruct H as (k' & Hk' & Hnone & Hall & _ & _ & Hr & _).
  assert (k' = k) as ->.
  { destruct (lt_eq_lt_dec k' k) as [[Hlt|]|Hgt]; [|done|].
    - destruct (Htaken k' Hlt). congruence.
    - destruct (Hall k Hgt). congruence. }
  rewrite Haccepted in Hr. subst r. by eexists _, _.
Qed.

(** With a control plane that accepts every request and a generator whose
    names to come are pairwise different and all free, a run of calls one
    after the other returns a name and a nil error for each call. *)
Lemma CreateSnapshots_accepted fuel reqs :
  ∀ (p : VolumeSnapshotter) (w : World),
  initialised p → (0 < fuel)%nat →
  (∀ n namespace cr, lhAnswer w n namespace cr = None) →
  (∀ n : nat, (drawn w ≤ n)%nat →
     index (snapshots p) (candidate w n) = None) →
  (∀ n m : nat, (drawn w ≤ n)%nat → (drawn w ≤ m)%nat →
     candidate w n = candidate w m → n = m) →
  ∃ rs p' w',
    exec (CreateSnapshots fuel reqs) p w = (Val rs, p', w') ∧
    length rs = length reqs ∧
    Forall (λ r, r.2 = None ∧ ∃ name, r.1 = "velero-" +:+ name) rs.
Proof.
  induction reqs as [|[[volumeID volumeAZ] tgs] reqs IH];
    intros p w Hinit Hfuel Haccepts Hfree Hinj.
  - eexists [], _, _. cbn. by split_and!.
  - destruct (initialised_inv p Hinit) as (vs & ss & c & Hvs & Hss & Hc).
    pose proof (CreateSnapshot_run fuel volumeID volumeAZ tgs p w vs ss c
                  Hvs Hss Hc) as H.
    destruct (exec (CreateSnapshot fuel volumeID volumeAZ tgs) p w)
      as [[[r|msg|] p1] w1] eqn:Hfirst; [|done|].
    2:{ destruct H as (_ & _ & Hall). destruct (Hall 0%nat Hfuel) as [s Hs].
        specialize (Hfree (drawn w + 0)%nat ltac:(lia)).
        rewrite Hss in Hfree. cbn in Hfree. congruence. }
    destruct H as (k & Hk & Hnone & _ & Hp1 & _ & Hr & Hd & Hg & Ha).
    rewrite Haccepts in Hr.
    assert (Hcand : ∀ n, candidate w1 n = candidate w n).
    { intros n. unfold candidate. by rewrite Hg. }
    destruct (IH p1 w1) as (rs & p2 & w2 & Hrest & Hlen & Hall).
    + subst p1. unfold initialised. cbn. by rewrite Hc.
    + done.
    + intros n namespace cr. by rewrite Ha.
    + intros n Hn. rewrite Hcand. subst p1. cbn.
      rewrite lookup_insert_ne.
      * specialize (Hfree n ltac:(lia)). by rewrite Hss in Hfree.
      * intros Heq. apply Hinj in Heq; lia.
    + intros n m Hn Hm. rewrite !Hcand. apply Hinj; lia.
    + exists (r :: rs), p2, w2. split_and!.
      * cbn [CreateSnapshots]. rewrite exec_bind, Hfirst. cbn [then_exec].
        by rewrite exec_bind, Hrest.
      * cbn. by rewrite Hlen.
      * constructor; [|done]. subst r. split; [done|]. by eexists.
Qed.

(** C2.  A name CreateSnapshot returns with a nil error starts with
    [velero-], was not a key of [p.snapshots] before the call, and is the
    first drawn candidate that was not (every earlier draw collided);
    calls made one after the other that all succeed return names that are
    pairwise different; the loop does leave once a free candidate is
    within the fuel; a call whose request is accepted does return the
    first free candidate with a nil error; and with a control plane that
    accepts everything and a generator that does not repeat itself, a run
    of calls returns one name for each call, every one with a nil error
    and the prefix, pairwise different. *)
Theorem CreateSnapshot_names_fresh_and_distinct :
  (∀ fuel volumeID volumeAZ tgs (p : VolumeSnapshotter) (w : World)
     snapshotID p' w',
     initialised p →
     exec (CreateSnapshot fuel volumeID volumeAZ tgs) p w =
       (Val (snapshotID, None), p', w') →
     (∃ name, snapshotID = "velero-" +:+ name) ∧
     index (snapshots p) snapshotID = None ∧
     ∃ k : nat, snapshotID = candidate w (drawn w + k) ∧
       ∀ j : nat, (j < k)%nat →
         is_Some (index (snapshots p) (candidate w (drawn w + j)))) ∧
  (∀ fuel reqs (p : VolumeSnapshotter) (w : World) rs p' w',
     initialised p →
     exec (CreateSnapshots fuel reqs) p w = (Val rs, p', w') →
     Forall (λ r, r.2 = None) rs →
     NoDup rs.*1) ∧
  (∀ fuel volumeID volumeAZ tgs (p : VolumeSnapshotter) (w : World) (k : nat),
     initialised p → (k < fuel)%nat →
     index (snapshots p) (candidate w (drawn w + k)) = None →
     ∃ r p' w',
       exec (CreateSnapshot fuel volumeID volumeAZ tgs) p w = (Val r, p', w')) ∧
  (∀ fuel volumeID volumeAZ tgs (p : VolumeSnapshotter) (w : World) (k : nat),
     initialised p → (k < fuel)%nat →
     (∀ j : nat, (j < k)%nat →
        is_Some (index (snapshots p) (candidate w (drawn w + j)))) →
     index (snapshots p) (candidate w (drawn w + k)) = None →
     lhAnswer w (length (issued w)) "longhorn-system"
       (mkLhSnapshot (candidate w (drawn w + k)) volumeID true) = None →
     ∃ snapshotID p' w',
       exec (CreateSnapshot fuel volumeID volumeAZ tgs) p w =
         (Val (snapshotID, None), p', w') ∧
       snapshotID = candidate w (drawn w + k) ∧
       (∃ name, snapshotID = "velero-" +:+ name) ∧
       index (snapshots p) snapshotID = None ∧
       is_Some (index (snapshots p') snapshotID)) ∧
  (∀ fuel reqs (p : VolumeSnapshotter) (w : World),
     initialised p → (0 < fuel)%nat →
     (∀ n namespace cr, lhAnswer w n namespace cr = None) →
     (∀ n : nat, (drawn w ≤ n)%nat →
        index (snapshots p) (candidate w n) = None) →
     (∀ n m : nat, (drawn w ≤ n)%nat → (drawn w ≤ m)%nat →
        candidate w n = candidate w m → n = m) →
     ∃ rs p' w',
       exec (CreateSnapshots fuel reqs) p w = (Val rs, p', w') ∧
       length rs = length reqs ∧
       Forall (λ r, r.2 = None ∧ ∃ name, r.1 = "velero-" +:+ name) rs ∧
       NoDup rs.*1).
Proof.
  split; [|split; [|split; [|split]]].
  - intros fuel volumeID volumeAZ tgs p w snapshotID p' w' Hinit Hrun.
    destruct (CreateSnapshot_returns _ _ _ _ _ _ _ _ _ Hinit Hrun)
      as (k & Hk & Hnone & Hall & _ & _ & _ & _ & _ & Hr).
    destruct (lhAnswer w _ _ _); [done|]. inversion Hr; subst.
    split; [by eexists|]. split; [done|]. by exists k.
  - intros fuel reqs p w rs p' w' Hinit Hrun.
    by destruct (CreateSnapshots_returns _ _ _ _ _ _ _ Hinit Hrun) as (_&_&_&?).
  - intros. by eapply CreateSnapshot_total.
  - intros fuel volumeID volumeAZ tgs p w k Hinit Hk Htaken Hfree Haccepted.
    destruct (CreateSnapshot_accepted fuel volumeID volumeAZ tgs p w k
                Hinit Hk Htaken Hfree Haccepted) as (p' & w' & Hrun).
    destruct (CreateSnapshot_returns _ _ _ _ _ _ _ _ _ Hinit Hrun)
      as (k' & _ & _ & _ & _ & Hsnap & _ & _ & _ & Hr).
    destruct (lhAnswer w _ _ (mkLhSnapshot (candidate w (drawn w + k')) _ _));
      [done|].
    pose proof (f_equal fst Hr) as Hid. cbn [fst] in Hid.
    rewrite <- Hid in Hsnap.
    eexists _, p', w'. split; [exact Hrun|]. split; [done|].
    split; [by eexists|]. split; [done|]. by eexists.
  - intros fuel reqs p w Hinit Hfuel Haccepts Hfree Hinj.
    destruct (CreateSnapshots_accepted fuel reqs p w Hinit Hfuel Haccepts
                Hfree Hinj) as (rs & p' & w' & Hrun & Hlen & Hall).
    exists rs, p', w'. split; [done|]. split; [done|]. split; [done|].
    destruct (CreateSnapshots_returns _ _ _ _ _ _ _ Hinit Hrun) as (_&_&_&Hnd).
    apply Hnd. eapply Forall_impl; [exact Hall|]. by intros r [? _].
Qed.

(** *** What a call can do to [p.volumes] *)

Lemma CreateSnapshot_volumes fuel volumeID volumeAZ tgs
    (p : VolumeSnapshotter) (w : World) :
  let p' := (exec (CreateSnapshot fuel volumeID volumeAZ tgs) p w).1.2 in
  volumes p' = volumes p ∨
  ∃ vs, volumes p = Some vs ∧ vs !! volumeID = None ∧
    volumes p' =
      Some (<[volumeID := mkVolume volumeID volumeAZ "" "v1" zeroQuantity]> vs).
Proof.
  unfold CreateSnapshot.
  cbn [bind trigger Infof exec handle]. rewrite exec_bind.
  set (w0 := log_line _ _ _ w).
  pose proof (CreateSnapshot_loop_spec fuel p w0) as Hloop.
  destruct (exec (CreateSnapshot_loop fuel) p w0) as [[[id|msg|] p1] w1];
    [|done|].
  - destruct Hloop as (-> & _).
    cbn [then_exec bind trigger Infof exec handle].
    destruct (volumes p) as [vs|] eqn:Hvs; cbn [index mbind option_bind].
    + destruct (vs !! volumeID) as [v|] eqn:Hv;
        cbn [bind trigger exec handle]; rewrite ?Hvs;
        cbn [snapshots with_volumes];
        destruct (snapshots p) as [ss|] eqn:Hss;
        cbn [lhClient with_snapshots with_volumes];
        destruct (lhClient p) as [c|] eqn:Hc;
        try destruct (lhAnswer _ _ _ _); cbn; eauto.
    + cbn [bind trigger exec handle]. rewrite Hvs. cbn. eauto.
  - destruct Hloop as (-> & _). cbn. eauto.
Qed.

Lemma GetVolumeID_volumes unstructuredPV (p : VolumeSnapshotter) (w : World) :
  let p' := (exec (GetVolumeID unstructuredPV) p w).1.2 in
  volumes p' = volumes p ∨
  ∃ vs v, volumes p = Some vs ∧ vs !! volName v = None ∧
    volumes p' = Some (<[volName v := v]> vs).
Proof.
  unfold GetVolumeID. cbn [bind trigger Infof exec handle].
  destruct (FromUnstructured unstructuredPV) as [err|pv]; [cbn; eauto|].
  destruct (bool_decide (Name pv = "") || bool_decide (StorageClassName pv = ""));
    [cbn; eauto|].
  cbn [bind trigger exec handle].
  destruct (volumes p) as [vs|] eqn:Hvs; cbn [index mbind option_bind].
  - destruct (vs !! Name pv) as [v|] eqn:Hv; cbn [bind trigger exec handle];
      rewrite ?Hvs; cbn; [eauto|].
    right. eexists vs, (mkVolume _ _ _ _ _). cbn. eauto.
  - cbn [bind trigger exec handle]. rewrite Hvs. cbn. eauto.
Qed.

Lemma Init_volumes cfg (p : VolumeSnapshotter) (w : World) :
  let p' := (exec (Init cfg) p w).1.2 in
  volumes p' = volumes p ∨ (volumes p = None ∧ volumes p' = Some ∅).
Proof.
  unfold Init. cbn [bind trigger Infof Errorlogf exec handle].
  cbn [volumes snapshots with_config with_volumes with_snapshots].
  destruct (volumes p) as [vs|] eqn:Hvs; cbn;
    destruct (snapshots p) as [ss|] eqn:Hss; cbn;
    destruct (inClusterConfig w) as [err|conf]; cbn; eauto;
    destruct (k8sNewForConfig w conf) as [err|k8s]; cbn; eauto;
    destruct (lhNewForConfig w conf) as [err|lh]; cbn; eauto.
Qed.

(** Every call either leaves [p.volumes] as it is, makes the nil map, or
    adds one record under a name that was free, the record's own. *)
Lemma after_volumes (c : Call) (p : VolumeSnapshotter) (w : World) :
  let p' := (after c (p, w)).1 in
  volumes p' = volumes p ∨
  (volumes p = None ∧ volumes p' = Some ∅) ∨
  ∃ vs v, volumes p = Some vs ∧ vs !! volName v = None ∧
    volumes p' = Some (<[volName v := v]> vs).
Proof.
  assert (Hthen : ∀ (A : Type) (m : Prog A),
    (let '(_, p', w') := exec (bind m (λ _, Ret ())) p w in (p', w')).1 =
    (exec m p w).1.2).
  { intros A m. rewrite exec_bind.
    by destruct (exec m p w) as [[[a|msg|] p1] w1]. }
  unfold after. cbn [fst snd].
  destruct c as [cfg|snapshotID volumeType volumeAZ iops|volumeID volumeAZ
    |volumeID volumeAZ|fuel volumeID volumeAZ tgs|snapshotID|unstructuredPV
    |unstructuredPV volumeID]; cbn [perform]; rewrite Hthen.
  - destruct (Init_volumes cfg p w) as [H|H]; eauto.
  - destruct iops; cbn; eauto.
  - cbn; eauto.
  - cbn; eauto.
  - destruct (CreateSnapshot_volumes fuel volumeID volumeAZ tgs p w)
      as [H|(vs & Hvs & Hfree & H)]; [eauto|].
    right; right. eexists vs, (mkVolume _ _ _ _ _). cbn. eauto.
  - cbn; eauto.
  - destruct (GetVolumeID_volumes unstructuredPV p w) as [H|H]; eauto.
  - unfold SetVolumeID. cbn [bind trigger Infof exec handle].
    destruct (FromUnstructured unstructuredPV) as [err|pv]; [cbn; eauto|].
    cbn [bind trigger exec handle].
    destruct (index _ _); [|cbn; eauto].
    destruct (ToUnstructured _); cbn; eauto.
Qed.

Lemma after_keeps_volume (c : Call) (p : VolumeSnapshotter) (w : World) name v :
  index (volumes p) name = Some v →
  index (volumes (after c (p, w)).1) name = Some v.
Proof.
  intros Hv.
  destruct (after_volumes c p w) as [H|[[H _]|(vs & v' & Hvs & Hfree & H)]].
  - by rewrite H.
  - by rewrite H in Hv.
  - rewrite H. rewrite Hvs in Hv. cbn in *.
    rewrite lookup_insert_ne; [done|congruence].
Qed.

Lemma after_keyed (c : Call) (p : VolumeSnapshotter) (w : World) :
  keyed p → keyed (after c (p, w)).1.
Proof.
  intros Hkeyed k v.
  destruct (after_volumes c p w) as [H|[[_ H]|(vs & v' & Hvs & Hfree & H)]];
    rewrite H.
  - apply Hkeyed.
  - cbn. by rewrite lookup_empty.
  - cbn. destruct (decide (volName v' = k)) as [<-|Hne].
    + rewrite lookup_insert_eq. congruence.
    + rewrite lookup_insert_ne; [|done]. intros Hk. apply Hkeyed.
      by rewrite Hvs.
Qed.

Lemma reachable_keyed (p : VolumeSnapshotter) : reachable p → keyed p.
Proof.
  intros (cs & w0 & <-). unfold session.
  assert (H : ∀ pw : VolumeSnapshotter * World, keyed pw.1 →
            keyed (foldl (λ pw c, after c pw) pw cs).1).
  { induction cs as [|c cs IH]; intros pw Hpw; [done|].
    cbn [foldl]. apply IH. destruct pw as [p w]. by apply after_keyed. }
  apply H. intros k v. by cbn.
Qed.

(** C3.  Once [p.volumes] holds a record under a name, no later call of any
    method, CreateSnapshot and GetVolumeID with any arguments among them,
    changes it: after any session the record under that name is still the
    one that was there. *)
Theorem volume_registration_first_write_wins
    (cs : list Call) (p : VolumeSnapshotter) (w : World) name v :
  index (volumes p) name = Some v →
  index (volumes (session cs (p, w)).1) name = Some v.
Proof.
  unfold session. revert p w.
  induction cs as [|c cs IH]; intros p w Hv; [done|].
  cbn [foldl].
  destruct (after c (p, w)) as [p1 w1] eqn:Hc.
  apply IH. change p1 with (p1, w1).1. rewrite <- Hc.
  by apply after_keeps_volume.
Qed.

(** *** The two identifier methods *)

Lemma GetVolumeID_empty unstructuredPV pv (p : VolumeSnapshotter) (w : World) :
  FromUnstructured unstructuredPV = inr pv →
  Name pv = "" ∨ StorageClassName pv = "" →
  exec (GetVolumeID unstructuredPV) p w =
    (Val ("", None), p,
     log_line InfoLevel "GetVolumeID called" [LObject unstructuredPV] w).
Proof.
  intros Hpv Hempty. unfold GetVolumeID.
  cbn [bind trigger Infof exec handle]. rewrite Hpv.
  assert (bool_decide (Name pv = "") || bool_decide (StorageClassName pv = "")
          = true) as ->; [|done].
  destruct Hempty as [H|H]; rewrite (bool_decide_eq_true_2 _ H);
    [done|apply orb_true_r].
Qed.

Lemma GetVolumeID_registers unstructuredPV pv (p : VolumeSnapshotter)
    (w : World) vs :
  FromUnstructured unstructuredPV = inr pv →
  Name pv ≠ "" → StorageClassName pv ≠ "" →
  volumes p = Some vs →
  exec (GetVolumeID unstructuredPV) p w =
    (Val (Name pv, None),
     with_volumes
       (Some (remember (Name pv)
                {| volName := Name pv; volAZ := "";
                   storageClass := StorageClassName pv; dataEngine := "v1";
                   size := default zeroQuantity
                             (Capacity pv !! ResourceStorage) |} vs)) p,
     log_line InfoLevel "GetVolumeID called" [LObject unstructuredPV] w).
Proof.
  intros Hpv Hname Hclass Hvs. unfold GetVolumeID.
  cbn [bind trigger Infof exec handle]. rewrite Hpv.
  rewrite (bool_decide_eq_false_2 _ Hname), (bool_decide_eq_false_2 _ Hclass).
  cbn [orb bind trigger exec handle].
  rewrite Hvs. cbn [index mbind option_bind]. unfold remember.
  destruct (vs !! Name pv) as [v|] eqn:Hv; cbn [bind trigger exec handle].
  - assert (with_volumes (Some vs) p = p) as ->; [|done].
    destruct p; cbn in *; by subst.
  - by rewrite Hvs.
Qed.

Lemma SetVolumeID_unknown unstructuredPV volumeID (p : VolumeSnapshotter)
    (w : World) :
  index (volumes p) volumeID = None →
  exec (SetVolumeID unstructuredPV volumeID) p w =
    (Val (None,
          Some match FromUnstructured unstructuredPV with
               | inl err => WithStack err
               | inr _ =>
                   Errorf "volume %s does not exist in the group" [volumeID]
               end),
     p,
     log_line InfoLevel "SetVolumeID called"
       [LObject unstructuredPV; LString volumeID] w).
Proof.
  intros Hnone. unfold SetVolumeID.
  cbn [bind trigger Infof exec handle].
  destruct (FromUnstructured unstructuredPV) as [err|pv]; [done|].
  cbn [bind trigger exec handle]. by rewrite Hnone.
Qed.

Lemma SetVolumeID_known unstructuredPV volumeID (p : VolumeSnapshotter)
    (w : World) vol pv res :
  index (volumes p) volumeID = Some vol →
  FromUnstructured unstructuredPV = inr pv →
  ToUnstructured (setName pv (volName vol)) = inr res →
  exec (SetVolumeID unstructuredPV volumeID) p w =
    (Val (Some res, None), p,
     log_line InfoLevel "SetVolumeID called"
       [LObject unstructuredPV; LString volumeID] w).
Proof.
  intros Hvol Hpv Hres. unfold SetVolumeID.
  cbn [bind trigger Infof exec handle].
  rewrite Hpv. cbn [bind trigger exec handle]. by rewrite Hvol, Hres.
Qed.

(** C5.  For a descriptor that converts to a PersistentVolume with an empty
    name or an empty storage class, GetVolumeID returns the empty
    identifier and a nil error and leaves the plugin as it was, so no
    Volume record is made.  With both fields non-empty (and [p.volumes]
    made by Init) it returns the name as it is and registers the volume
    unless the name is already there; a second call with the same
    descriptor returns the same name and changes nothing more. *)
Theorem GetVolumeID_sentinel_and_registration
    unstructuredPV pv (p : VolumeSnapshotter) (w : World) :
  FromUnstructured unstructuredPV = inr pv →
  (Name pv = "" ∨ StorageClassName pv = "" →
     ∃ w', exec (GetVolumeID unstructuredPV) p w = (Val ("", None), p, w') ∧
       issued w' = issued w) ∧
  (Name pv ≠ "" → StorageClassName pv ≠ "" →
     ∀ vs, volumes p = Some vs →
     let vol := {| volName := Name pv; volAZ := "";
                   storageClass := StorageClassName pv; dataEngine := "v1";
                   size := default zeroQuantity
                             (Capacity pv !! ResourceStorage) |} in
     ∃ p1 w1 w2,
       exec (GetVolumeID unstructuredPV) p w = (Val (Name pv, None), p1, w1) ∧
       index (volumes p1) (Name pv) = Some (default vol (vs !! Name pv)) ∧
       (∀ k, k ≠ Name pv → index (volumes p1) k = vs !! k) ∧
       snapshots p1 = snapshots p ∧
       issued w1 = issued w ∧
       exec (GetVolumeID unstructuredPV) p1 w1 = (Val (Name pv, None), p1, w2)).
Proof.
  intros Hpv. split.
  - intros Hempty. rewrite (GetVolumeID_empty _ _ _ _ Hpv Hempty).
    by eexists.
  - intros Hname Hclass vs Hvs vol.
    pose proof (GetVolumeID_registers _ _ p w _ Hpv Hname Hclass Hvs) as Hrun.
    fold vol in Hrun.
    set (p1 := with_volumes _ p) in Hrun. set (w1 := log_line _ _ _ w) in Hrun.
    assert (Hp1 : volumes p1 = Some (remember (Name pv) vol vs)) by done.
    pose proof (GetVolumeID_registers _ _ p1 w1 _ Hpv Hname Hclass Hp1) as Hrun1.
    fold vol in Hrun1.
    assert (Hrec : remember (Name pv) vol vs !! Name pv =
                   Some (default vol (vs !! Name pv)))
      by apply remember_lookup.
    eexists p1, w1, _. split_and!; try done.
    + intros k Hk. cbn. unfold remember.
      destruct (vs !! Name pv); [done|]. by rewrite lookup_insert_ne.
    + rewrite Hrun1. f_equal. f_equal. subst p1. unfold with_volumes. cbn.
      f_equal. f_equal. unfold remember at 1. by rewrite Hrec.
Qed.

(** C4.  SetVolumeID with an identifier that has no record in [p.volumes]
    fails: it returns a nil object and an error, which for a descriptor
    that converts is "volume <id> does not exist in the group", and the
    plugin is left as it was (the descriptor passed in is only read).  With
    a record under the identifier, it returns the descriptor rebuilt from
    the PersistentVolume whose Name is the record's [volName], the other
    fields being those of the descriptor passed in. *)
Theorem SetVolumeID_unknown_and_known
    unstructuredPV volumeID (p : VolumeSnapshotter) (w : World) :
  (index (volumes p) volumeID = None →
     ∃ err w',
       exec (SetVolumeID unstructuredPV volumeID) p w =
         (Val (None, Some err), p, w') ∧
       issued w' = issued w ∧
       ∀ pv, FromUnstructured unstructuredPV = inr pv →
         err = Errorf "volume %s does not exist in the group" [volumeID] ∧
         Error err = Sprintf "volume %s does not exist in the group" [volumeID]) ∧
  (∀ vol pv res,
     index (volumes p) volumeID = Some vol →
     FromUnstructured unstructuredPV = inr pv →
     ToUnstructured (setName pv (volName vol)) = inr res →
     Name (setName pv (volName vol)) = volName vol ∧
     StorageClassName (setName pv (volName vol)) = StorageClassName pv ∧
     Capacity (setName pv (volName vol)) = Capacity pv ∧
     pv_other (setName pv (volName vol)) = pv_other pv ∧
     ∃ w',
       exec (SetVolumeID unstructuredPV volumeID) p w =
         (Val (Some res, None), p, w') ∧
       issued w' = issued w).
Proof.
  split.
  - intros Hnone. rewrite (SetVolumeID_unknown _ _ _ _ Hnone).
    eexists _, _. split; [done|]. split; [done|].
    intros pv Hpv. by rewrite Hpv.
  - intros vol pv res Hvol Hpv Hres.
    rewrite (SetVolumeID_known _ _ _ _ _ _ _ Hvol Hpv Hres).
    split_and!; try done. by eexists.
Qed.

(** C6.  On a plugin reached from NewVolumeSnapshotter whose [p.volumes] is
    made, for a descriptor that converts to a PersistentVolume with a name
    and a storage class and that can be converted back: GetVolumeID
    returns the name, and SetVolumeID with that name then returns the
    conversion of a PersistentVolume whose Name is the original name, the
    very one the descriptor converts to. *)
Theorem GetVolumeID_SetVolumeID_round_trip
    unstructuredPV pv res (p : VolumeSnapshotter) (w : World) :
  reachable p →
  volumes p ≠ None →
  FromUnstructured unstructuredPV = inr pv →
  Name pv ≠ "" → StorageClassName pv ≠ "" →
  ToUnstructured pv = inr res →
  ∃ volumeID p1 w1 w2,
    exec (GetVolumeID unstructuredPV) p w = (Val (volumeID, None), p1, w1) ∧
    volumeID = Name pv ∧
    exec (SetVolumeID unstructuredPV volumeID) p1 w1 =
      (Val (Some res, None), p1, w2) ∧
    ∃ pv', ToUnstructured pv' = inr res ∧ Name pv' = Name pv ∧ pv' = pv.
Proof.
  intros Hreach Hmade Hpv Hname Hclass Hres.
  destruct (volumes p) as [vs|] eqn:Hvs; [clear Hmade|done].
  rewrite (GetVolumeID_registers _ _ _ _ _ Hpv Hname Hclass Hvs).
  set (vol0 := mkVolume _ _ _ _ _).
  set (p1 := with_volumes _ p). set (w1 := log_line _ _ _ w).
  assert (Hkeyed : keyed p) by by apply reachable_keyed.
  assert (∃ vol, index (volumes p1) (Name pv) = Some vol ∧ volName vol = Name pv)
    as (vol & Hvol & Hvn).
  { exists (default vol0 (vs !! Name pv)). split.
    - cbn. apply remember_lookup.
    - destruct (vs !! Name pv) as [v|] eqn:Hv; cbn; [|done].
      apply Hkeyed. by rewrite Hvs. }
  assert (Hsame : setName pv (volName vol) = pv).
  { rewrite Hvn. by destruct pv. }
  rewrite <- Hsame in Hres.
  eexists (Name pv), p1, w1, _. split; [done|]. split; [done|].
  split; [by apply (SetVolumeID_known _ _ _ _ vol pv res)|].
  exists pv. by rewrite <- Hsame at 1.
Qed.

(** *** The methods that only answer *)

(** C8.  DeleteSnapshot returns a nil error for every name, known or not;
    the plugin after the call is the plugin before it, so no entry leaves
    [p.snapshots]; no request is sent and no name is drawn: the one thing
    it does is log a line. *)
Theorem DeleteSnapshot_only_acknowledges
    snapshotID (p : VolumeSnapshotter) (w : World) :
  ∃ w',
    exec (DeleteSnapshot snapshotID) p w = (Val None, p, w') ∧
    w' = log_line InfoLevel "DeleteSnapshot called" [LString snapshotID] w ∧
    issued w' = issued w ∧ drawn w' = drawn w.
Proof. eexists. by split_and!. Qed.

(** C10.  CreateVolumeFromSnapshot with a nil [iops] panics on the
    dereference before anything else happens: nothing is logged and the
    plugin is untouched.  With [iops] pointing to a value it returns the
    empty volume identifier and a nil error for every input, leaves the
    plugin as it is and sends nothing; it logs one line. *)
Theorem CreateVolumeFromSnapshot_needs_iops
    snapshotID volumeType volumeAZ (p : VolumeSnapshotter) (w : World) :
  exec (CreateVolumeFromSnapshot snapshotID volumeType volumeAZ None) p w =
    (Panicked nil_deref_panic, p, w) ∧
  ∀ i : Z, ∃ w',
    exec (CreateVolumeFromSnapshot snapshotID volumeType volumeAZ (Some i)) p w =
      (Val ("", None), p, w') ∧
    issued w' = issued w ∧ drawn w' = drawn w ∧
    logged w' =
      mkLogEntry InfoLevel "CreateVolumeFromSnapshot called"
        [LString snapshotID; LString volumeType; LString volumeAZ; LInt64 i]
      :: logged w.
Proof. split; [done|]. intros i. eexists. by split_and!. Qed.

(** *** Calls that overlap *)

Lemma race_app {A B : Type} (s1 s2 : list bool) :
  ∀ (m1 : Prog A) (m2 : Prog B) (p : VolumeSnapshotter) (w : World),
  race (s1 ++ s2) m1 m2 p w =
    let '(m1', m2', p', w') := race s1 m1 m2 p w in race s2 m1' m2' p' w'.
Proof.
  induction s1 as [|[] s1 IH]; intros m1 m2 p w; [done| |]; cbn [app race].
  - destruct (step m1 p w) as [[m1' p'] w']. apply IH.
  - destruct (step m2 p w) as [[m2' p'] w']. apply IH.
Qed.

Lemma race_first_only {A B : Type} (n : nat) :
  ∀ (m1 : Prog A) (m2 : Prog B) (p : VolumeSnapshotter) (w : World),
  (race (replicate n true) m1 m2 p w).1.1.2 = m2.
Proof.
  induction n as [|n IH]; intros m1 m2 p w; [done|].
  cbn [replicate race]. destruct (step m1 p w) as [[m1' p'] w']. apply IH.
Qed.

Lemma step_ended {A : Type} (m : Prog A) (p : VolumeSnapshotter) (w : World) :
  ended m = true → step m p w = (m, p, w).
Proof. by destruct m. Qed.

Lemma keeps_now {A : Type} name v (m : Prog A) (p : VolumeSnapshotter)
    (w : World) :
  keeps name v m p w → index (volumes p) name = Some v.
Proof. destruct m; by intros [? _]. Qed.

Lemma keeps_vis {A X : Type} name v (e : Prim X) (k : X → Prog A)
    (p : VolumeSnapshotter) (w : World) :
  index (volumes p) name = Some v →
  match handle e p w with
  | (Val x, p', w') => keeps name v (k x) p' w'
  | (_, p', _) => index (volumes p') name = Some v
  end →
  keeps name v (Vis e k) p w.
Proof. by split. Qed.

Lemma keeps_race {A B : Type} name v (schedule : list bool) :
  ∀ (m1 : Prog A) (m2 : Prog B) (p : VolumeSnapshotter) (w : World),
  ended m1 = true → keeps name v m2 p w →
  index (volumes (raced schedule m1 m2 p w)) name = Some v.
Proof.
  unfold raced.
  induction schedule as [|[] schedule IH]; intros m1 m2 p w Hended Hkeeps;
    cbn [race].
  - by eapply keeps_now.
  - rewrite (step_ended _ _ _ Hended). by apply IH.
  - destruct m2 as [b|msg| |X e k]; cbn [step]; try by apply IH.
    destruct Hkeeps as [Hnow Hnext].
    destruct (handle e p w) as [[[x|msg|] p'] w']; apply IH; done.
Qed.

Lemma keeps_bind {A B : Type} name v (m : Prog A) (f : A → Prog B) :
  ∀ (p : VolumeSnapshotter) (w : World),
  keeps name v m p w →
  (∀ a p' w', exec m p w = (Val a, p', w') → keeps name v (f a) p' w') →
  keeps name v (bind m f) p w.
Proof.
  induction m as [a|msg| |X e k IH]; intros p w Hm Hf; cbn [bind].
  - by apply Hf.
  - done.
  - done.
  - destruct Hm as [Hnow Hnext]. split; [done|]. cbn [exec] in Hf.
    destruct (handle e p w) as [[[x|msg|] p'] w']; [|done|done].
    by apply IH.
Qed.

Lemma keeps_loop name v fuel :
  ∀ (p : VolumeSnapshotter) (w : World),
  index (volumes p) name = Some v →
  keeps name v (CreateSnapshot_loop fuel) p w.
Proof.
  induction fuel as [|fuel IH]; intros p w Hv; [done|].
  cbn [CreateSnapshot_loop bind trigger Infof keeps handle].
  split; [done|]. split; [done|]. split; [done|].
  destruct (index (snapshots p) _); [by apply IH|done].
Qed.

Lemma keeps_CreateSnapshot name v fuel volumeID volumeAZ tgs
    (p : VolumeSnapshotter) (w : World) :
  index (volumes p) name = Some v →
  keeps name v (CreateSnapshot fuel volumeID volumeAZ tgs) p w.
Proof.
  intros Hv. unfold CreateSnapshot.
  cbn [bind trigger Infof keeps handle]. split; [done|].
  apply keeps_bind; [by apply keeps_loop|].
  intros id p1 w1 Hloop.
  pose proof (CreateSnapshot_loop_spec fuel p (log_line InfoLevel
    "CreateSnapshot called" [LString volumeID; LString volumeAZ; LMap tgs] w))
    as Hspec.
  rewrite Hloop in Hspec. destruct Hspec as (-> & _).
  cbn [bind trigger Infof keeps handle]. split; [done|]. split; [done|].
  destruct (volumes p) as [vs|] eqn:Hvs; [|done].
  cbn [index mbind option_bind] in Hv |- *.
  assert (Htail : ∀ (p2 : VolumeSnapshotter) (w2 : World),
    index (volumes p2) name = Some v →
    keeps name v
      (Vis (WriteSnapshot id (mkSnapshot volumeID volumeAZ tgs))
         (λ _, Vis (Logf InfoLevel "Creating snapshot %v for volume %v"
                      [LString id; LString volumeID])
            (λ _, Vis (LhCreate "longhorn-system"
                         (mkLhSnapshot id volumeID true))
               (λ err, match err with
                       | Some err => Ret ("", Some err)
                       | None =>
                           Vis (Logf InfoLevel "CreateSnapshot returning"
                                  [LString id])
                             (λ _, Ret (id, None))
                       end)))) p2 w2).
  { intros p2 w2 Hv2. cbn [keeps handle]. split; [done|].
    destruct (snapshots p2) as [ss|]; [|done].
    split; [done|]. split; [done|].
    cbn [lhClient with_snapshots].
    destruct (lhClient p2) as [c|]; [|done].
    destruct (lhAnswer _ _ _ _); cbn [keeps handle]; by split_and!. }
  destruct (vs !! volumeID) as [v0|] eqn:Hv0; cbn [bind trigger Infof].
  - apply Htail. by rewrite Hvs.
  - apply keeps_vis; [by rewrite Hvs|]. cbn [handle]. rewrite Hvs.
    apply Htail. cbn. rewrite lookup_insert_ne; [done|congruence].
Qed.

(** C9, as the code has it.  The struct has no lock: registering a volume
    is a read of [p.volumes] followed by a separate write.  What does hold
    is first-write-wins for calls that do not overlap: when one
    CreateSnapshot call has ended before another call for the same volume
    takes its first action, the record the first one left under that name
    is the record read at every later point of the second call, however
    far it has got. *)
Theorem CreateSnapshot_calls_in_turn_keep_first_record
    fuelA fuelB volumeID zoneA zoneB tagsA tagsB
    (p : VolumeSnapshotter) (w : World) (n : nat) (schedule : list bool) v :
  let callA := CreateSnapshot fuelA volumeID zoneA tagsA in
  let callB := CreateSnapshot fuelB volumeID zoneB tagsB in
  ended (race (replicate n true) callA callB p w).1.1.1 = true →
  index (volumes (raced (replicate n true) callA callB p w)) volumeID = Some v →
  index (volumes (raced (replicate n true ++ schedule) callA callB p w))
    volumeID = Some v.
Proof.
  intros callA callB Hended Hv. unfold raced in *.
  rewrite race_app.
  pose proof (race_first_only n callA callB p w) as Hsecond.
  destruct (race (replicate n true) callA callB p w) as [[[mA mB] p1] w1].
  cbn [fst snd] in *. subst mB.
  apply keeps_race; [done|]. by apply keeps_CreateSnapshot.
Qed.

(** ** More on the methods, one by one *)

(** *** Init *)

(** The fields Init sets whatever the cluster answers: the configuration
    and the two maps, made only where they were nil. *)
Lemma Init_run cfg (p : VolumeSnapshotter) (w : World) :
  let base :=
    with_snapshots (Some (default ∅ (snapshots p)))
      (with_volumes (Some (default ∅ (volumes p))) (with_config cfg p)) in
  ∃ w', same_outside w w' ∧ drawn w' = drawn w ∧
    exec (Init cfg) p w =
      match inClusterConfig w with
      | inl err => (Val (Some (New "error fetching cluster config")), base, w')
      | inr conf =>
          match k8sNewForConfig w conf with
          | inl err =>
              (Val (Some (Wrap err "failed to create k8s client")), base, w')
          | inr k8s =>
              match lhNewForConfig w conf with
              | inl err =>
                  (Val (Some (Wrap err "failed to create longhorn client")),
                   with_k8sClient (Some k8s) base, w')
              | inr lh =>
                  (Val None,
                   with_lhClient (Some lh) (with_k8sClient (Some k8s) base), w')
              end
          end
      end.
Proof.
  intros base. subst base. unfold Init.
  cbn [bind trigger Infof Errorlogf exec handle].
  cbn [volumes snapshots with_config with_volumes with_snapshots].
  destruct p as [c0 [vs|] [ss|] k0 l0]; cbn;
    (destruct (inClusterConfig w) as [err|conf]; cbn;
     [|destruct (k8sNewForConfig w conf) as [err|k8s]; cbn;
       [|destruct (lhNewForConfig w conf) as [err|lh]; cbn]]);
    (eexists; split_and!; [| |reflexivity]; by repeat split).
Qed.

(** Init always returns, whatever the cluster answers: it stores the
    configuration, leaves both maps made, keeps every entry either map had,
    sends nothing to the control plane and draws no name. *)
Theorem Init_makes_maps_and_keeps_entries
    cfg (p : VolumeSnapshotter) (w : World) :
  ∃ r p' w',
    exec (Init cfg) p w = (Val r, p', w') ∧
    config p' = cfg ∧
    volumes p' ≠ None ∧ snapshots p' ≠ None ∧
    (∀ k, index (volumes p') k = index (volumes p) k) ∧
    (∀ id, index (snapshots p') id = index (snapshots p) id) ∧
    issued w' = issued w ∧ drawn w' = drawn w.
Proof.
  destruct (Init_run cfg p w) as (w' & (_ & _ & Hi & _) & Hd & Hrun).
  cbn zeta in Hrun.
  assert (Hv : ∀ k, index (Some (default ∅ (volumes p))) k = index (volumes p) k).
  { intros k. destruct (volumes p); [done|]. cbn. apply lookup_empty. }
  assert (Hs : ∀ id,
    index (Some (default ∅ (snapshots p))) id = index (snapshots p) id).
  { intros id. destruct (snapshots p); [done|]. cbn. apply lookup_empty. }
  destruct (inClusterConfig w) as [err|conf];
    [|destruct (k8sNewForConfig w conf) as [err|k8s];
      [|destruct (lhNewForConfig w conf) as [err|lh]]];
    eexists _, _, w'; (split; [exact Hrun|]); by split_and!.
Qed.

(** Init returns a nil error exactly when the cluster configuration is
    found and both clients can be built from it; the plugin is then
    initialised, with the clients built from that configuration. *)
Theorem Init_succeeds_exactly_when_clients_are_built
    cfg (p : VolumeSnapshotter) (w : World) :
  ((exec (Init cfg) p w).1.1 = Val None ↔
   ∃ conf k8s lh,
     inClusterConfig w = inr conf ∧ k8sNewForConfig w conf = inr k8s ∧
     lhNewForConfig w conf = inr lh) ∧
  (∀ conf k8s lh,
     inClusterConfig w = inr conf → k8sNewForConfig w conf = inr k8s →
     lhNewForConfig w conf = inr lh →
     let p' := (exec (Init cfg) p w).1.2 in
     initialised p' ∧ k8sClient p' = Some k8s ∧ lhClient p' = Some lh).
Proof.
  destruct (Init_run cfg p w) as (w' & _ & _ & Hrun). cbn zeta in Hrun.
  split.
  - rewrite Hrun.
    destruct (inClusterConfig w) as [err|conf]; cbn.
    { split; [done|]. by intros (?&?&?&?&_). }
    destruct (k8sNewForConfig w conf) as [err|k8s] eqn:Hk; cbn.
    { split; [done|]. intros (?&?&?&?&?&_). simplify_eq. congruence. }
    destruct (lhNewForConfig w conf) as [err|lh] eqn:Hl; cbn.
    { split; [done|]. intros (?&?&?&?&?&?). simplify_eq. congruence. }
    split; [|done]. intros _. by exists conf, k8s, lh.
  - intros conf k8s lh Hc Hk Hl. rewrite Hc, Hk, Hl in Hrun.
    rewrite Hrun. cbn. by repeat split.
Qed.

(** The three ways Init fails.  With no cluster configuration the error
    returned is a fixed one that does not carry the cause, and neither
    client field is touched.  When the Kubernetes client cannot be built
    the cause is wrapped and neither client field is touched.  When the
    Longhorn client cannot be built the cause is wrapped, the Kubernetes
    client has already been stored and the Longhorn client field is left as
    it was. *)
Theorem Init_failures cfg (p : VolumeSnapshotter) (w : World) :
  let r := (exec (Init cfg) p w).1.1 in
  let p' := (exec (Init cfg) p w).1.2 in
  (∀ err, inClusterConfig w = inl err →
     r = Val (Some (New "error fetching cluster config")) ∧
     k8sClient p' = k8sClient p ∧ lhClient p' = lhClient p) ∧
  (∀ conf err,
     inClusterConfig w = inr conf → k8sNewForConfig w conf = inl err →
     r = Val (Some (Wrap err "failed to create k8s client")) ∧
     Error (Wrap err "failed to create k8s client") =
       "failed to create k8s client: " +:+ Error err ∧
     k8sClient p' = k8sClient p ∧ lhClient p' = lhClient p) ∧
  (∀ conf k8s err,
     inClusterConfig w = inr conf → k8sNewForConfig w conf = inr k8s →
     lhNewForConfig w conf = inl err →
     r = Val (Some (Wrap err "failed to create longhorn client")) ∧
     Error (Wrap err "failed to create longhorn client") =
       "failed to create longhorn client: " +:+ Error err ∧
     k8sClient p' = Some k8s ∧ lhClient p' = lhClient p).
Proof.
  destruct (Init_run cfg p w) as (w' & _ & _ & Hrun). cbn zeta in Hrun.
  cbn zeta. split_and!.
  - intros err Hc. rewrite Hc in Hrun. by rewrite Hrun.
  - intros conf err Hc Hk. rewrite Hc, Hk in Hrun. by rewrite Hrun.
  - intros conf k8s err Hc Hk Hl. rewrite Hc, Hk, Hl in Hrun. by rewrite Hrun.
Qed.

(** Init can be called again: in the same cluster a second call with the
    same configuration returns what the first returned and leaves the
    plugin as the first left it. *)
Theorem Init_again_changes_nothing cfg (p : VolumeSnapshotter) (w : World) :
  ∃ r p1 w1 w2,
    exec (Init cfg) p w = (r, p1, w1) ∧
    exec (Init cfg) p1 w1 = (r, p1, w2).
Proof.
  destruct (Init_run cfg p w) as (w1 & (_&_&_&Hc&Hk&Hl) & _ & Hrun).
  cbn zeta in Hrun.
  set (base := with_snapshots _ _) in Hrun.
  assert (Hagain : ∀ p1 : VolumeSnapshotter,
    config p1 = cfg → volumes p1 = volumes base →
    snapshots p1 = snapshots base →
    with_snapshots (Some (default ∅ (snapshots p1)))
      (with_volumes (Some (default ∅ (volumes p1))) (with_config cfg p1)) =
    with_lhClient (lhClient p1) (with_k8sClient (k8sClient p1) base)).
  { intros [c1 v1 s1 k1 l1]; cbn. by intros -> -> ->. }
  destruct (inClusterConfig w) as [err|conf] eqn:Ec;
    [|destruct (k8sNewForConfig w conf) as [err|k8s] eqn:Ek;
      [|destruct (lhNewForConfig w conf) as [err|lh] eqn:El]];
    match type of Hrun with
    | exec _ _ _ = (_, ?p1, _) =>
        destruct (Init_run cfg p1 w1) as (w2 & _ & _ & Hrun2);
        cbn zeta in Hrun2; rewrite Hagain in Hrun2 by done;
        rewrite Hc, ?Hk, ?Ek, ?Hl, ?El in Hrun2;
        eexists _, _, w1, w2; split; [exact Hrun|exact Hrun2]
    end.
Qed.

(** *** CreateSnapshot on any plugin *)

Lemma exec_vis {A X : Type} (e : Prim X) (k : X → Prog A)
    (p : VolumeSnapshotter) (w : World) :
  exec (Vis e k) p w =
    match handle e p w with
    | (Val x, p', w') => exec (k x) p' w'
    | (Panicked msg, p', w') => (Panicked msg, p', w')
    | (Spinning, p', w') => (Spinning, p', w')
    end.
Proof. done. Qed.

(** While every name within the fuel is taken the loop is still drawing:
    one name per round, nothing else. *)
Lemma CreateSnapshot_loop_spins fuel (p : VolumeSnapshotter) :
  ∀ w : World,
  (∀ j : nat, (j < fuel)%nat →
     is_Some (index (snapshots p) (candidate w (drawn w + j)))) →
  ∃ w', exec (CreateSnapshot_loop fuel) p w = (Spinning, p, w') ∧
    same_outside w w' ∧ drawn w' = (drawn w + fuel)%nat.
Proof.
  induction fuel as [|fuel IH]; intros w Htaken.
  - exists w. cbn. split_and!; [done|apply same_outside_refl|lia].
  - cbn [CreateSnapshot_loop bind trigger Infof exec handle].
    set (w1 := log_line _ _ _ (draw w)).
    fold (candidate w (drawn w)).
    destruct (Htaken 0%nat ltac:(lia)) as [s Hs].
    rewrite Nat.add_0_r in Hs. rewrite Hs.
    destruct (IH w1) as (w' & Hrun & Hout & Hd).
    { intros j Hj. specialize (Htaken (S j) ltac:(lia)).
      by replace (drawn w + S j)%nat with (drawn w1 + j)%nat in Htaken
        by (cbn; lia). }
    exists w'. split; [done|]. split.
    + eapply same_outside_trans; [|exact Hout]. by repeat split.
    + rewrite Hd. cbn. lia.
Qed.

(** What CreateSnapshot does to the plugin and to the list of requests,
    whatever state the plugin is in and however the call ends: the clients
    and the configuration stay; at most one volume record is added, under
    a free name; at most one snapshot record is added, under a free
    candidate name and only once its volume is registered; at most one
    request goes out, and only after the snapshot record is stored. *)
Lemma CreateSnapshot_effect fuel volumeID volumeAZ tgs
    (p : VolumeSnapshotter) (w : World) :
  let p' := (exec (CreateSnapshot fuel volumeID volumeAZ tgs) p w).1.2 in
  let w' := (exec (CreateSnapshot fuel volumeID volumeAZ tgs) p w).2 in
  config p' = config p ∧ k8sClient p' = k8sClient p ∧
  lhClient p' = lhClient p ∧
  (volumes p' = volumes p ∨
   ∃ vs, volumes p = Some vs ∧ vs !! volumeID = None ∧
     volumes p' =
       Some (<[volumeID := mkVolume volumeID volumeAZ "" "v1" zeroQuantity]> vs)) ∧
  ((snapshots p' = snapshots p ∧ issued w' = issued w) ∨
   ∃ ss k,
     let snapshotID := candidate w (drawn w + k) in
     snapshots p = Some ss ∧ ss !! snapshotID = None ∧
     snapshots p' =
       Some (<[snapshotID := mkSnapshot volumeID volumeAZ tgs]> ss) ∧
     is_Some (index (volumes p') volumeID) ∧
     (issued w' = issued w ∨
      issued w' =
        mkRequest "longhorn-system" (mkLhSnapshot snapshotID volumeID true) p'
        :: issued w)).
Proof.
  unfold CreateSnapshot.
  cbn [bind trigger Infof exec handle]. rewrite exec_bind.
  set (w0 := log_line _ _ _ w).
  pose proof (CreateSnapshot_loop_spec fuel p w0) as Hloop.
  destruct (exec (CreateSnapshot_loop fuel) p w0) as [[[id|msg|] p1] w1];
    [|done|].
  2:{ destruct Hloop as (-> & (_ & _ & Hi & _) & _). cbn.
      split_and!; try done; [by left|left; by split]. }
  destruct Hloop as (-> & (_ & _ & Hi & _) & k & _ & -> & Hnone & _).
  change (candidate w0 (drawn w0 + k)) with (candidate w (drawn w + k)) in *.
  change (issued w0) with (issued w) in Hi.
  set (id := candidate w (drawn w + k)) in *.
  cbn [then_exec bind trigger Infof exec handle].
  destruct (volumes p) as [vs|] eqn:Hvs; cbn [index mbind option_bind].
  2:{ cbn [bind trigger exec handle]. rewrite Hvs. cbn.
      split_and!; try done; [by left|left; by split]. }
  assert (Hafter : ∀ (p2 : VolumeSnapshotter),
    config p2 = config p → k8sClient p2 = k8sClient p →
    lhClient p2 = lhClient p → snapshots p2 = snapshots p →
    is_Some (index (volumes p2) volumeID) →
    let r := exec
      (Vis (WriteSnapshot id (mkSnapshot volumeID volumeAZ tgs))
         (λ _, Vis (Logf InfoLevel "Creating snapshot %v for volume %v"
                      [LString id; LString volumeID])
            (λ _, Vis (LhCreate "longhorn-system"
                         (mkLhSnapshot id volumeID true))
               (λ err, match err with
                       | Some err => Ret ("", Some err)
                       | None =>
                           Vis (Logf InfoLevel "CreateSnapshot returning"
                                  [LString id])
                             (λ _, Ret (id, None))
                       end))))
      p2 (log_line InfoLevel "Create snapshot %v for volume %v"
            [LString id; LString volumeID] w1) in
    config r.1.2 = config p ∧ k8sClient r.1.2 = k8sClient p ∧
    lhClient r.1.2 = lhClient p ∧ volumes r.1.2 = volumes p2 ∧
    ((snapshots r.1.2 = snapshots p ∧ issued r.2 = issued w) ∨
     ∃ ss, snapshots p = Some ss ∧ ss !! id = None ∧
       snapshots r.1.2 = Some (<[id := mkSnapshot volumeID volumeAZ tgs]> ss) ∧
       is_Some (index (volumes r.1.2) volumeID) ∧
       (issued r.2 = issued w ∨
        issued r.2 =
          mkRequest "longhorn-system" (mkLhSnapshot id volumeID true) r.1.2
          :: issued w))).
  { intros p2 Hcfg Hk8s Hlh Hsn Hvol. cbn [exec handle]. rewrite Hsn.
    destruct (snapshots p) as [ss|] eqn:Hss.
    2:{ cbn. split_and!; try done. left. by split. }
    cbn [lhClient with_snapshots]. rewrite Hlh.
    destruct (lhClient p) as [c|] eqn:Hc.
    2:{ cbn. split_and!; try done. right. exists ss.
        split_and!; try done. by left. }
    cbn [issued send log_line lhAnswer].
    destruct (lhAnswer w1 _ _ _); cbn -[index];
      (split_and!; try done; right; exists ss;
       split_and!; try done; right; by rewrite Hi). }
  destruct (vs !! volumeID) as [v|] eqn:Hv; cbn [bind trigger Infof].
  - destruct (Hafter p) as (?&?&?&Hsame&Hsnap); try done.
    { rewrite Hvs. cbn. rewrite Hv. by eexists. }
    split_and!; try done; [left; by rewrite Hsame, Hvs|].
    destruct Hsnap as [?|(ss&?&?&?&?&?)]; [by left|].
    right. by exists ss, k.
  - rewrite exec_vis. cbn [handle]. rewrite Hvs.
    destruct (Hafter (with_volumes (Some (<[volumeID :=
                mkVolume volumeID volumeAZ "" "v1" zeroQuantity]> vs)) p))
      as (?&?&?&Hsame&Hsnap); try done.
    { cbn. rewrite lookup_insert_eq. by eexists. }
    split_and!; try done.
    + right. exists vs. by rewrite Hsame.
    + destruct Hsnap as [?|(ss&?&?&?&?&?)]; [by left|].
      right. by exists ss, k.
Qed.

(** The loop leaves with the first free candidate once one is within the
    fuel, on any plugin. *)
Lemma CreateSnapshot_loop_leaves fuel (p : VolumeSnapshotter) (w : World) k :
  (k < fuel)%nat →
  index (snapshots p) (candidate w (drawn w + k)) = None →
  ∃ k' w', (k' ≤ k)%nat ∧
    exec (CreateSnapshot_loop fuel) p w = (Val (candidate w (drawn w + k')), p, w') ∧
    index (snapshots p) (candidate w (drawn w + k')) = None ∧
    same_outside w w'.
Proof.
  intros Hk Hfree.
  pose proof (CreateSnapshot_loop_spec fuel p w) as Hloop.
  destruct (exec (CreateSnapshot_loop fuel) p w) as [[[id|msg|] p1] w1];
    [|done|].
  - destruct Hloop as (-> & Hout & k' & Hk' & -> & Hnone & Hall & _).
    exists k', w1. split_and!; try done.
    destruct (decide (k' ≤ k)%nat) as [|Hgt]; [done|].
    destruct (Hall k ltac:(lia)) as [s Hs]. congruence.
  - destruct Hloop as (_ & _ & Hall).
    destruct (Hall k Hk) as [s Hs]. congruence.
Qed.

(** CreateSnapshot on a plugin whose maps were never made (no Init yet):
    once the loop has its name, the write of the volume record panics; the
    plugin is as it was and nothing was sent. *)
Theorem CreateSnapshot_without_maps_panics
    fuel volumeID volumeAZ tgs (p : VolumeSnapshotter) (w : World) (k : nat) :
  volumes p = None →
  (k < fuel)%nat →
  index (snapshots p) (candidate w (drawn w + k)) = None →
  ∃ w', exec (CreateSnapshot fuel volumeID volumeAZ tgs) p w =
          (Panicked nil_map_panic, p, w') ∧
        issued w' = issued w.
Proof.
  intros Hvs Hk Hfree. unfold CreateSnapshot.
  cbn [bind trigger Infof exec handle]. rewrite exec_bind.
  set (w0 := log_line _ _ _ w).
  destruct (CreateSnapshot_loop_leaves fuel p w0 k Hk Hfree)
    as (k' & w1 & _ & -> & _ & (_ & _ & Hi & _)).
  cbn [then_exec bind trigger Infof exec handle]. rewrite Hvs.
  cbn [index mbind option_bind bind trigger exec handle]. rewrite Hvs.
  eexists. split; [done|]. cbn. by rewrite Hi.
Qed.

(** CreateSnapshot on a plugin whose maps are made but whose Longhorn
    client is nil (an Init that failed): the volume and the snapshot are
    stored first, then the call through the nil client panics.  No request
    has gone out, and both records stay. *)
Theorem CreateSnapshot_without_client_panics_after_storing
    fuel volumeID volumeAZ tgs (p : VolumeSnapshotter) (w : World) (k : nat)
    vs ss :
  volumes p = Some vs → snapshots p = Some ss → lhClient p = None →
  (k < fuel)%nat →
  ss !! candidate w (drawn w + k) = None →
  ∃ snapshotID p' w',
    exec (CreateSnapshot fuel volumeID volumeAZ tgs) p w =
      (Panicked nil_deref_panic, p', w') ∧
    ss !! snapshotID = None ∧
    index (snapshots p') snapshotID = Some (mkSnapshot volumeID volumeAZ tgs) ∧
    index (volumes p') volumeID =
      Some (default (mkVolume volumeID volumeAZ "" "v1" zeroQuantity)
              (vs !! volumeID)) ∧
    issued w' = issued w.
Proof.
  intros Hvs Hss Hc Hk Hfree. unfold CreateSnapshot.
  cbn [bind trigger Infof exec handle]. rewrite exec_bind.
  set (w0 := log_line _ _ _ w).
  destruct (CreateSnapshot_loop_leaves fuel p w0 k Hk) as
    (k' & w1 & _ & -> & Hnone & (_ & _ & Hi & _)).
  { by rewrite Hss. }
  rewrite Hss in Hnone. cbn in Hnone.
  change (candidate w0 (drawn w0 + k')) with (candidate w (drawn w + k')) in *.
  set (id := candidate w (drawn w + k')) in *.
  exists id.
  cbn [then_exec bind trigger Infof exec handle].
  rewrite Hvs. cbn [index mbind option_bind].
  destruct (vs !! volumeID) as [v|] eqn:Hv; cbn [bind trigger exec handle];
    rewrite ?Hvs; cbn [snapshots with_volumes]; rewrite Hss;
    cbn [lhClient with_snapshots with_volumes]; rewrite Hc;
    eexists _, _; (split; [reflexivity|]); cbn;
    rewrite ?Hvs; cbn; rewrite ?lookup_insert_eq, ?Hv, ?Hi; by split_and!.
Qed.

(** CreateSnapshot while every name the generator gives is taken: the call
    is still in its loop when the fuel is spent, for any fuel; it has drawn
    one name per round and has touched neither the plugin nor the control
    plane.  The loop has no bound of its own. *)
Theorem CreateSnapshot_keeps_drawing_while_names_collide
    fuel volumeID volumeAZ tgs (p : VolumeSnapshotter) (w : World) :
  (∀ j : nat, (j < fuel)%nat →
     is_Some (index (snapshots p) (candidate w (drawn w + j)))) →
  ∃ w', exec (CreateSnapshot fuel volumeID volumeAZ tgs) p w =
          (Spinning, p, w') ∧
        issued w' = issued w ∧ drawn w' = (drawn w + fuel)%nat.
Proof.
  intros Htaken. unfold CreateSnapshot.
  cbn [bind trigger Infof exec handle]. rewrite exec_bind.
  set (w0 := log_line _ _ _ w).
  destruct (CreateSnapshot_loop_spins fuel p w0 Htaken)
    as (w' & -> & (_ & _ & Hi & _) & Hd).
  exists w'. by split_and!.
Qed.

(** *** The identifier methods on any plugin *)

(** GetVolumeID before the maps are made: a descriptor with a name and a
    storage class makes the write of its record panic; the plugin is as it
    was. *)
Theorem GetVolumeID_without_maps_panics
    unstructuredPV pv (p : VolumeSnapshotter) (w : World) :
  volumes p = None →
  FromUnstructured unstructuredPV = inr pv →
  Name pv ≠ "" → StorageClassName pv ≠ "" →
  ∃ w', exec (GetVolumeID unstructuredPV) p w =
          (Panicked nil_map_panic, p, w') ∧
        issued w' = issued w.
Proof.
  intros Hvs Hpv Hname Hclass. unfold GetVolumeID.
  cbn [bind trigger Infof exec handle]. rewrite Hpv.
  rewrite (bool_decide_eq_false_2 _ Hname), (bool_decide_eq_false_2 _ Hclass).
  cbn [orb bind trigger exec handle]. rewrite Hvs.
  cbn [index mbind option_bind bind trigger exec handle]. rewrite Hvs.
  by eexists.
Qed.

(** A descriptor the converter refuses, and a PersistentVolume it cannot
    convert back: both methods hand the converter's error back under
    WithStack, which keeps its message, with an empty identifier or a nil
    object; the plugin is not touched.  SetVolumeID converts before it
    looks the identifier up, so a refused descriptor gives the conversion
    error whether or not the identifier is registered. *)
Theorem conversion_errors_come_back_wrapped
    unstructuredPV volumeID (p : VolumeSnapshotter) (w : World) :
  (∀ err, FromUnstructured unstructuredPV = inl err →
     Error (WithStack err) = Error err ∧
     (∃ w', exec (GetVolumeID unstructuredPV) p w =
              (Val ("", Some (WithStack err)), p, w') ∧
            issued w' = issued w) ∧
     (∃ w', exec (SetVolumeID unstructuredPV volumeID) p w =
              (Val (None, Some (WithStack err)), p, w') ∧
            issued w' = issued w)) ∧
  (∀ pv vol err,
     FromUnstructured unstructuredPV = inr pv →
     index (volumes p) volumeID = Some vol →
     ToUnstructured (setName pv (volName vol)) = inl err →
     ∃ w', exec (SetVolumeID unstructuredPV volumeID) p w =
             (Val (None, Some (WithStack err)), p, w') ∧
           issued w' = issued w).
Proof.
  split.
  - intros err Hpv. split; [done|].
    unfold GetVolumeID, SetVolumeID.
    cbn [bind trigger Infof exec handle]. rewrite Hpv.
    split; by eexists.
  - intros pv vol err Hpv Hvol Hres. unfold SetVolumeID.
    cbn [bind trigger Infof exec handle]. rewrite Hpv.
    cbn [bind trigger exec handle]. rewrite Hvol, Hres. by eexists.
Qed.

(** What GetVolumeID does to the plugin, whatever state it is in. *)
Lemma GetVolumeID_effect unstructuredPV (p : VolumeSnapshotter) (w : World) :
  let p' := (exec (GetVolumeID unstructuredPV) p w).1.2 in
  let w' := (exec (GetVolumeID unstructuredPV) p w).2 in
  snapshots p' = snapshots p ∧ issued w' = issued w ∧ drawn w' = drawn w ∧
  (p' = p ∨
   ∃ vs v, volumes p = Some vs ∧ vs !! volName v = None ∧
     dataEngine v = "v1" ∧ volumes p' = Some (<[volName v := v]> vs)).
Proof.
  unfold GetVolumeID. cbn [bind trigger Infof exec handle].
  destruct (FromUnstructured unstructuredPV) as [err|pv];
    [cbn; by split_and!; [..|left]|].
  destruct (bool_decide (Name pv = "") || bool_decide (StorageClassName pv = ""));
    [cbn; by split_and!; [..|left]|].
  cbn [bind trigger exec handle].
  destruct (volumes p) as [vs|] eqn:Hvs; cbn [index mbind option_bind].
  - destruct (vs !! Name pv) as [v|] eqn:Hv; cbn [bind trigger exec handle];
      rewrite ?Hvs; cbn; split_and!; try done; [by left|].
    right. eexists vs, (mkVolume _ _ _ _ _). cbn. by split_and!.
  - cbn [bind trigger exec handle]. rewrite Hvs. cbn.
    split_and!; try done. by left.
Qed.

(** *** Whole sessions *)

Lemma after_bind_unit {A : Type} (m : Prog A) (p : VolumeSnapshotter)
    (w : World) :
  (let '(_, p', w') := exec (bind m (λ _, Ret ())) p w in (p', w')) =
  ((exec m p w).1.2, (exec m p w).2).
Proof.
  rewrite exec_bind. by destruct (exec m p w) as [[[a|msg|] p1] w1].
Qed.

(** A call of a method that writes neither map leaves the plugin as it is,
    sends nothing and draws nothing. *)
Lemma after_onlyReads (c : Call) (p : VolumeSnapshotter) (w : World) :
  onlyReads c = true →
  (after c (p, w)).1 = p ∧ issued (after c (p, w)).2 = issued w ∧
  drawn (after c (p, w)).2 = drawn w.
Proof.
  intros Hc. unfold after. cbn [fst snd].
  destruct c as [cfg|snapshotID volumeType volumeAZ iops|volumeID volumeAZ
    |volumeID volumeAZ|fuel volumeID volumeAZ tgs|snapshotID|unstructuredPV
    |unstructuredPV volumeID]; try done; cbn [perform];
    rewrite after_bind_unit.
  - by destruct iops.
  - unfold SetVolumeID. cbn [bind trigger Infof exec handle].
    destruct (FromUnstructured unstructuredPV) as [err|pv]; [by cbn|].
    cbn [bind trigger exec handle].
    destruct (index _ _); [|by cbn]. by destruct (ToUnstructured _).
Qed.

(** What one call can do to the two maps and to the list of requests.
    Init makes the maps that are nil and keeps the others. *)
Lemma after_Init cfg (p : VolumeSnapshotter) (w : World) :
  let p' := (after (CallInit cfg) (p, w)).1 in
  let w' := (after (CallInit cfg) (p, w)).2 in
  volumes p' = Some (default ∅ (volumes p)) ∧
  snapshots p' = Some (default ∅ (snapshots p)) ∧
  issued w' = issued w.
Proof.
  unfold after. cbn [fst snd perform]. rewrite after_bind_unit. cbn [fst snd].
  destruct (Init_run cfg p w) as (w' & (_&_&Hi&_) & _ & Hrun).
  cbn zeta in Hrun. rewrite Hrun.
  destruct (inClusterConfig w) as [err|conf];
    [|destruct (k8sNewForConfig w conf) as [err|k8s];
      [|destruct (lhNewForConfig w conf) as [err|lh]]]; by cbn.
Qed.

(** Every other call adds at most one volume record and at most one
    snapshot record, each under a free name, and at most one request, for
    the snapshot just stored. *)
Lemma after_other (c : Call) (p : VolumeSnapshotter) (w : World) :
  isInit c = false →
  let p' := (after c (p, w)).1 in
  let w' := (after c (p, w)).2 in
  (volumes p' = volumes p ∨
   ∃ vs v, volumes p = Some vs ∧ vs !! volName v = None ∧
     dataEngine v = "v1" ∧ volumes p' = Some (<[volName v := v]> vs)) ∧
  ((snapshots p' = snapshots p ∧ issued w' = issued w) ∨
   ∃ ss id s,
     isCreateSnapshot c = true ∧
     snapshots p = Some ss ∧ ss !! id = None ∧
     snapshots p' = Some (<[id := s]> ss) ∧
     (∃ name, id = "velero-" +:+ name) ∧
     is_Some (index (volumes p') (snap_volName s)) ∧
     (issued w' = issued w ∨
      issued w' =
        mkRequest "longhorn-system"
          (mkLhSnapshot id (snap_volName s) true) p' :: issued w)).
Proof.
  intros Hc.
  destruct (decide (onlyReads c = true)) as [Hreads|Hwrites].
  { destruct (after_onlyReads c p w Hreads) as (Hp & Hi & _).
    cbn zeta. rewrite Hp, Hi. split; [by left|left; by split]. }
  unfold after. cbn [fst snd].
  destruct c as [cfg|snapshotID volumeType volumeAZ iops|volumeID volumeAZ
    |volumeID volumeAZ|fuel volumeID volumeAZ tgs|snapshotID|unstructuredPV
    |unstructuredPV volumeID]; try done; cbn [perform];
    rewrite after_bind_unit; cbn [fst snd].
  - destruct (CreateSnapshot_effect fuel volumeID volumeAZ tgs p w)
      as (_ & _ & _ & Hvol & Hsnap).
    split.
    + destruct Hvol as [?|(vs & ? & ? & ?)]; [by left|].
      right. eexists vs, (mkVolume _ _ _ _ _). cbn. by split_and!.
    + destruct Hsnap as [?|(ss & k & ? & ? & ? & ? & ?)]; [by left|].
      right. eexists ss, _, (mkSnapshot _ _ _). cbn [snap_volName].
      split_and!; try done. by eexists.
  - destruct (GetVolumeID_effect unstructuredPV p w) as (Hs & Hi & _ & Hv).
    split; [|left; by split].
    destruct Hv as [->|?]; [by left|by right].
Qed.

(** An invariant of single calls is an invariant of sessions. *)
Lemma session_invariant (P : VolumeSnapshotter → World → Prop) :
  (∀ c p w, P p w → P (after c (p, w)).1 (after c (p, w)).2) →
  ∀ cs p w, P p w → P (session cs (p, w)).1 (session cs (p, w)).2.
Proof.
  intros Hstep cs. unfold session.
  induction cs as [|c cs IH]; intros p w HP; [done|].
  cbn [foldl]. specialize (Hstep c p w HP).
  destruct (after c (p, w)) as [p1 w1]. by apply IH.
Qed.

Lemma after_keeps_snapshot (c : Call) (p : VolumeSnapshotter) (w : World)
    id s :
  index (snapshots p) id = Some s →
  index (snapshots (after c (p, w)).1) id = Some s.
Proof.
  intros Hs.
  destruct (snapshots p) as [ss|] eqn:Hss; [|done]. cbn in Hs.
  destruct (isInit c) eqn:Hc.
  - destruct c as [cfg| | | | | | |]; try done.
    destruct (after_Init cfg p w) as (_ & -> & _). by rewrite Hss.
  - destruct (after_other c p w Hc)
      as [_ [[-> _]|(ss0 & id0 & s0 & _ & Hss0 & Hfree & -> & _)]].
    + by rewrite Hss.
    + rewrite Hss in Hss0. injection Hss0 as <-.
      cbn. rewrite lookup_insert_ne; [done|congruence].
Qed.

Lemma after_keeps_registered (c : Call) (p : VolumeSnapshotter) (w : World) k :
  is_Some (index (volumes p) k) →
  is_Some (index (volumes (after c (p, w)).1) k).
Proof.
  intros [v Hv]. exists v.
  destruct (volumes p) as [vs|] eqn:Hvs; [|done]. cbn in Hv.
  destruct (isInit c) eqn:Hc.
  - destruct c as [cfg| | | | | | |]; try done.
    destruct (after_Init cfg p w) as (-> & _). by rewrite Hvs.
  - destruct (after_other c p w Hc)
      as [[->|(vs0 & v0 & Hvs0 & Hfree & _ & ->)] _].
    + by rewrite Hvs.
    + rewrite Hvs in Hvs0. injection Hvs0 as <-.
      cbn. rewrite lookup_insert_ne; [done|congruence].
Qed.

(** A snapshot record, once stored, is there for good: no session of calls
    of any method, DeleteSnapshot with its name among them, removes it or
    changes it. *)
Theorem session_keeps_every_snapshot
    (cs : list Call) (p : VolumeSnapshotter) (w : World) id s :
  index (snapshots p) id = Some s →
  index (snapshots (session cs (p, w)).1) id = Some s.
Proof.
  intros Hs.
  apply (session_invariant (λ p' _, index (snapshots p') id = Some s));
    [|done].
  intros c p1 w1. apply after_keeps_snapshot.
Qed.

(** On every plugin a session leads to from NewVolumeSnapshotter, each
    Volume record is stored under its own name and has data engine "v1",
    and the two maps are either both nil or both made. *)
Theorem reachable_volumes_sound (p : VolumeSnapshotter) :
  reachable p →
  volumes_sound p ∧ (volumes p = None ↔ snapshots p = None).
Proof.
  intros (cs & w0 & <-).
  apply (session_invariant
           (λ p' _, volumes_sound p' ∧ (volumes p' = None ↔ snapshots p' = None)));
    [|by split].
  intros c p1 w1 [Hsound Hboth].
  destruct (isInit c) eqn:Hc.
  - destruct c as [cfg| | | | | | |]; try done.
    destruct (after_Init cfg p1 w1) as (Hv & Hs & _).
    split; [|by rewrite Hv, Hs].
    intros k v. rewrite Hv. destruct (volumes p1) as [vs|] eqn:Hvs.
    + intros Hk. apply Hsound. by rewrite Hvs.
    + cbn. by rewrite lookup_empty.
  - destruct (after_other c p1 w1 Hc) as [Hv Hs].
    assert (Hsn : snapshots (after c (p1, w1)).1 = None ↔ snapshots p1 = None).
    { by destruct Hs as [[-> _]|(ss & id & s & _ & -> & _ & -> & _)]. }
    destruct Hv as [Hsame|(vs & v & Hvs & Hfree & Hv1 & Hnew)].
    + split; [|by rewrite Hsame, Hsn].
      intros k v. rewrite Hsame. apply Hsound.
    + split; [|by rewrite Hnew, Hsn, <- Hboth, Hvs].
      intros k v'. rewrite Hnew. cbn.
      destruct (decide (volName v = k)) as [<-|Hne].
      * rewrite lookup_insert_eq. by intros [= <-].
      * rewrite lookup_insert_ne; [|done]. intros Hk. apply Hsound.
        by rewrite Hvs.
Qed.

(** On every plugin a session leads to from NewVolumeSnapshotter, each
    Snapshot record is stored under a name that starts with "velero-" and
    is of a volume that has a record in [p.volumes]. *)
Theorem reachable_snapshots_sound (p : VolumeSnapshotter) :
  reachable p → snapshots_sound p.
Proof.
  intros (cs & w0 & <-).
  apply (session_invariant (λ p' _, snapshots_sound p')); [|done].
  intros c p1 w1 Hsound id s Hs.
  assert (Hold : ∀ s0, index (snapshots p1) id = Some s0 →
    (∃ name, id = "velero-" +:+ name) ∧
    is_Some (index (volumes (after c (p1, w1)).1) (snap_volName s0))).
  { intros s0 Hs0. destruct (Hsound id s0 Hs0) as [Hname Hreg].
    split; [done|]. by apply after_keeps_registered. }
  destruct (isInit c) eqn:Hc.
  - destruct c as [cfg| | | | | | |]; try done.
    destruct (after_Init cfg p1 w1) as (_ & Hsn & _).
    apply Hold. rewrite Hsn in Hs.
    destruct (snapshots p1); [done|]. cbn in Hs. by rewrite lookup_empty in Hs.
  - destruct (after_other c p1 w1 Hc) as [_ [[Hsame _]|
      (ss & id0 & s0 & _ & Hss & Hfree & Hnew & Hname & Hreg & _)]].
    + apply Hold. by rewrite <- Hsame.
    + rewrite Hnew in Hs. cbn in Hs.
      destruct (decide (id0 = id)) as [<-|Hne].
      * rewrite lookup_insert_eq in Hs. by injection Hs as <-.
      * rewrite lookup_insert_ne in Hs by done. apply Hold.
        by rewrite Hss.
Qed.

(** Over any session, the requests sent to the control plane keep these
    properties: each went to "longhorn-system" with CreateSnapshot set, no
    two of them carry the same snapshot name (also when some were refused),
    and each has its record in [p.snapshots], of the volume the request
    names. *)
Theorem session_keeps_requests_tracked
    (cs : list Call) (p : VolumeSnapshotter) (w : World) :
  tracked p w →
  tracked (session cs (p, w)).1 (session cs (p, w)).2.
Proof.
  apply (session_invariant tracked).
  clear p w cs. intros c p w [Hnodup Hreqs].
  assert (Hold : ∀ req, req ∈ issued w →
    req_namespace req = "longhorn-system" ∧
    cr_CreateSnapshot (req_snapshot req) = true ∧
    ∃ s, index (snapshots (after c (p, w)).1) (requestName req) = Some s ∧
         snap_volName s = cr_Volume (req_snapshot req)).
  { intros req Hin. destruct (Hreqs req Hin) as (? & ? & s & Hs & ?).
    split_and!; try done. exists s. split; [|done].
    by apply after_keeps_snapshot. }
  destruct (isInit c) eqn:Hc.
  - destruct c as [cfg| | | | | | |]; try done.
    destruct (after_Init cfg p w) as (_ & _ & Hi).
    split; rewrite Hi; done.
  - destruct (after_other c p w Hc) as [_ [[_ Hi]|
      (ss & id & s & _ & Hss & Hfree & Hnew & _ & _ & [Hi|Hi])]];
      try (split; rewrite Hi; done).
    unfold tracked. rewrite Hi. split.
    + cbn [fmap list_fmap requestName req_snapshot cr_Name].
      constructor; [|done].
      intros Hin. apply list_elem_of_fmap in Hin as (req & Hname & Hin).
      destruct (Hreqs req Hin) as (_ & _ & s0 & Hs0 & _).
      rewrite <- Hname, Hss in Hs0. cbn in Hs0. congruence.
    + intros req Hin. apply elem_of_cons in Hin as [->|Hin]; [|by apply Hold].
      cbn [req_namespace req_snapshot requestName cr_Name cr_Volume
           cr_CreateSnapshot].
      split_and!; try done. exists s. rewrite Hnew. cbn.
      by rewrite lookup_insert_eq.
Qed.

(** Only CreateSnapshot talks to the control plane, and at most once per
    call: over a session the list of requests grows at its head, by no
    more entries than the session has CreateSnapshot calls. *)
Theorem session_sends_at_most_one_request_per_CreateSnapshot
    (cs : list Call) (p : VolumeSnapshotter) (w : World) :
  ∃ new : list Request,
    issued (session cs (p, w)).2 = (new ++ issued w)%list ∧
    (length new ≤ length (filter (λ c, isCreateSnapshot c = true) cs))%nat.
Proof.
  unfold session. revert p w.
  induction cs as [|c cs IH]; intros p w; [by exists []|].
  cbn [foldl].
  assert (Hstep : ∃ one : list Request,
    issued (after c (p, w)).2 = (one ++ issued w)%list ∧
    (length one ≤ if isCreateSnapshot c then 1 else 0)%nat).
  { destruct (isInit c) eqn:Hc.
    - destruct c as [cfg| | | | | | |]; try done.
      destruct (after_Init cfg p w) as (_ & _ & Hi). by exists [].
    - destruct (after_other c p w Hc) as [_ [[_ Hi]|
        (ss & id & s & Hcreate & _ & _ & _ & _ & _ & [Hi|Hi])]].
      + exists []. split; [done|]. cbn. lia.
      + exists []. split; [done|]. cbn. lia.
      + eexists [_]. split; [exact Hi|]. by rewrite Hcreate. }
  destruct Hstep as (one & Hone & Hlen).
  destruct (after c (p, w)) as [p1 w1]. cbn [snd] in Hone.
  destruct (IH p1 w1) as (new & Hnew & Hlen').
  exists (new ++ one)%list. split.
  - by rewrite Hnew, Hone, app_assoc.
  - rewrite length_app, filter_cons.
    destruct (isCreateSnapshot c); [|cbn in *; case_decide; [done|lia]].
    case_decide; [cbn; lia|done].
Qed.

(** A session made of calls of CreateVolumeFromSnapshot, GetVolumeInfo,
    IsVolumeReady, DeleteSnapshot and SetVolumeID only, with any arguments,
    leaves the plugin exactly as it was, sends nothing to the control plane
    and draws no name. *)
Theorem session_of_reading_calls_changes_nothing
    (cs : list Call) (p : VolumeSnapshotter) (w : World) :
  Forall (λ c, onlyReads c = true) cs →
  (session cs (p, w)).1 = p ∧
  issued (session cs (p, w)).2 = issued w ∧
  drawn (session cs (p, w)).2 = drawn w.
Proof.
  unfold session. revert w.
  induction cs as [|c cs IH]; intros w Hall; [done|].
  apply Forall_cons in Hall as [Hc Hall]. cbn [foldl].
  destruct (after_onlyReads c p w Hc) as (Hp & Hi & Hd).
  destruct (after c (p, w)) as [p1 w1]. cbn [fst snd] in *. subst p1.
  rewrite <- Hi, <- Hd. by apply IH.
Qed.

(** GetVolumeInfo and IsVolumeReady answer without looking at anything:
    for every plugin, made or not, and every volume and zone, registered or
    not, the type is "longhorn-volume" with a nil IOPS and the volume is
    ready, with a nil error. *)
Theorem status_methods_answer_without_looking
    volumeID volumeAZ (p : VolumeSnapshotter) (w : World) :
  (∃ w', exec (GetVolumeInfo volumeID volumeAZ) p w =
           (Val ("longhorn-volume", None, None), p, w') ∧
         issued w' = issued w) ∧
  (∃ w', exec (IsVolumeReady volumeID volumeAZ) p w =
           (Val (true, None), p, w') ∧
         issued w' = issued w).
Proof. split; by eexists. Qed.

(** Which method sees a volume first decides what is known of it.  When
    CreateSnapshot registers the volume, the record has the zone, no
    storage class and the zero size, and a later GetVolumeID with the
    volume's descriptor returns the name but records neither the storage
    class nor the capacity. *)
Theorem GetVolumeID_after_CreateSnapshot_learns_nothing
    fuel volumeAZ tgs unstructuredPV pv
    (p : VolumeSnapshotter) (w : World) r p1 w1 :
  initialised p →
  FromUnstructured unstructuredPV = inr pv →
  Name pv ≠ "" → StorageClassName pv ≠ "" →
  index (volumes p) (Name pv) = None →
  exec (CreateSnapshot fuel (Name pv) volumeAZ tgs) p w = (Val r, p1, w1) →
  ∃ w2,
    exec (GetVolumeID unstructuredPV) p1 w1 = (Val (Name pv, None), p1, w2) ∧
    index (volumes p1) (Name pv) =
      Some (mkVolume (Name pv) volumeAZ "" "v1" zeroQuantity).
Proof.
  intros Hinit Hpv Hname Hclass Hnew Hrun.
  destruct (CreateSnapshot_returns _ _ _ _ _ _ _ _ _ Hinit Hrun)
    as (k & _ & _ & _ & Hinit1 & _ & _ & Hvol & _).
  rewrite Hnew in Hvol. cbn in Hvol.
  destruct (initialised_inv p1 Hinit1) as (vs & _ & _ & Hvs & _).
  rewrite (GetVolumeID_registers _ _ _ _ _ Hpv Hname Hclass Hvs).
  rewrite Hvs in Hvol. cbn in Hvol.
  eexists. split; [|by rewrite Hvs].
  f_equal. f_equal. unfold remember. rewrite Hvol.
  destruct p1; cbn in *; by subst.
Qed.

(** DeleteSnapshot does not free a name: after deleting a stored snapshot
    and any further calls, the record is still there, and a CreateSnapshot
    that succeeds returns some other name. *)
Theorem deleted_name_is_not_given_again
    (cs : list Call) fuel volumeID volumeAZ tgs
    (p : VolumeSnapshotter) (w : World) id s p1 w1 snapshotID p2 w2 :
  index (snapshots p) id = Some s →
  session (CallDeleteSnapshot id :: cs) (p, w) = (p1, w1) →
  initialised p1 →
  exec (CreateSnapshot fuel volumeID volumeAZ tgs) p1 w1 =
    (Val (snapshotID, None), p2, w2) →
  snapshotID ≠ id ∧ index (snapshots p2) id = Some s.
Proof.
  intros Hs Hsession Hinit Hrun.
  assert (Hs1 : index (snapshots p1) id = Some s).
  { change p1 with (p1, w1).1. rewrite <- Hsession.
    apply (session_invariant (λ p' _, index (snapshots p') id = Some s));
      [|done].
    intros c p' w'. apply after_keeps_snapshot. }
  destruct (CreateSnapshot_returns _ _ _ _ _ _ _ _ _ Hinit Hrun)
    as (k & _ & Hfree & _ & _ & _ & Hkeep & _ & _ & Hr).
  split; [|by apply Hkeep].
  destruct (lhAnswer w1 _ _ _); [done|]. injection Hr as ->.
  intros <-. congruence.
Qed.


End Facts.

(** ** The statements on the concrete setting *)

Import Demo.

Lemma plugin0_initialised : initialised plugin0.
Proof. vm_compute. by split_and!. Qed.

Lemma plugin0_reachable : reachable 0%Z FromBag ToBag plugin0.
Proof. exists [CallInit ∅], world0. vm_compute. reflexivity. Qed.

(** Before [Init] the maps are nil: the first write panics. *)
Example CreateSnapshot_before_Init :
  (exec callA NewVolumeSnapshotter world0).1 =
    (Panicked nil_map_panic, NewVolumeSnapshotter).
Proof. vm_compute. reflexivity. Qed.

(** A descriptor that does not convert is refused before the identifier is
    looked up. *)
Example SetVolumeID_malformed_descriptor :
  (exec (SetVolumeID FromBag ToBag malformed "does-not-exist") plugin1
     world0).1 =
    (Val (None,
          Some (WithStack (Foreign "cannot convert metadata.name to string"))),
     plugin1).
Proof. vm_compute. reflexivity. Qed.

Example Error_of_unknown_volume :
  Error (Errorf "volume %s does not exist in the group" ["does-not-exist"]) =
    "volume does-not-exist does not exist in the group".
Proof. reflexivity. Qed.

(** The control plane refuses: the error comes back with the empty name,
    and the request saw the snapshot and the volume already stored. *)
Lemma CreateSnapshot_denied_keeps_registrations :
  ∃ (snapshotID : string) (req : Request),
    issued denied.2 = req :: issued refusing ∧
    req_namespace req = "longhorn-system" ∧
    req_snapshot req = mkLhSnapshot snapshotID "pv-1" true ∧
    index (snapshots plugin0) snapshotID = None ∧
    index (snapshots (in_flight req)) snapshotID =
      Some (mkSnapshot "pv-1" "zone-a" ∅) ∧
    index (volumes (in_flight req)) "pv-1" =
      Some (default (mkVolume "pv-1" "zone-a" "" "v1" 0%Z)
              (index (volumes plugin0) "pv-1")) ∧
    denied.1.2 = in_flight req ∧
    match lhAnswer refusing (length (issued refusing)) "longhorn-system"
            (req_snapshot req) with
    | Some err =>
        ("", Some (Foreign "admission webhook denied the request")) =
          ("", Some err)
    | None =>
        ("", Some (Foreign "admission webhook denied the request")) =
          (snapshotID, None)
    end.
Proof.
  destruct (CreateSnapshot_registers_before_request_and_keeps_on_failure
              (Unstructured := bag) 0%Z 5 "pv-1" "zone-a" ∅ plugin0 refusing
              plugin0_initialised) as [Hreturned _].
  apply Hreturned. vm_compute. reflexivity.
Defined.

Lemma CreateSnapshot_accepted_metadata :
  index (snapshots accepted.1.2) "velero-snap-aa" =
    Some {| snap_volName := "pv-1"; snap_volAZ := "zone-a"; tags := ∅ |} ∧
  ∃ snapshotID p' w',
    exec (CreateSnapshot 0%Z 5 "pv-1" "zone-a" ∅) plugin0 world0 =
      (Val (snapshotID, None), p', w').
Proof.
  destruct (CreateSnapshot_metadata (Unstructured := bag) 0%Z 5 "pv-1" "zone-a"
              ∅ plugin0 world0 plugin0_initialised) as [Hstored Hsucceeds].
  split.
  - apply (Hstored "velero-snap-aa" accepted.1.2 accepted.2).
    vm_compute. reflexivity.
  - apply (Hsucceeds 0%nat); [lia|vm_compute; reflexivity|done].
Defined.

Lemma CreateSnapshots_three_names :
  ((∃ name, "velero-snap-aa" = "velero-" +:+ name) ∧
   index (snapshots plugin0) "velero-snap-aa" = None ∧
   ∃ k : nat, "velero-snap-aa" = candidate world0 (drawn world0 + k) ∧
     ∀ j : nat, (j < k)%nat →
       is_Some (index (snapshots plugin0) (candidate world0 (drawn world0 + j)))) ∧
  NoDup ["velero-snap-aa"; "velero-snap-bb"; "velero-snap-cb"] ∧
  (∃ r p' w', exec (CreateSnapshot 0%Z 3 "pv-1" "zone-a" ∅) accepted.1.2 accepted.2
              = (Val r, p', w')) ∧
  (∃ snapshotID p' w',
     exec (CreateSnapshot 0%Z 3 "pv-1" "zone-a" ∅) accepted.1.2 accepted.2 =
       (Val (snapshotID, None), p', w') ∧
     snapshotID = candidate accepted.2 (drawn accepted.2 + 1) ∧
     (∃ name, snapshotID = "velero-" +:+ name) ∧
     index (snapshots accepted.1.2) snapshotID = None ∧
     is_Some (index (snapshots p') snapshotID)) ∧
  (∃ rs p' w',
     exec (CreateSnapshots 0%Z 1 threeCalls) plugin0 counting = (Val rs, p', w') ∧
     length rs = length threeCalls ∧
     Forall (λ r, r.2 = None ∧ ∃ name, r.1 = "velero-" +:+ name) rs ∧
     NoDup rs.*1).
Proof.
  destruct (@CreateSnapshot_names_fresh_and_distinct Z bag 0%Z)
    as (Hfresh & Hdistinct & Hleaves & Haccepted & Hrun).
  split; [|split; [|split; [|split]]].
  - apply (Hfresh 5 "pv-1" "zone-a" ∅ plugin0 world0 "velero-snap-aa"
             accepted.1.2 accepted.2).
    + exact plugin0_initialised.
    + vm_compute. reflexivity.
  - apply (Hdistinct 5 threeCalls plugin0 world0
             [("velero-snap-aa", None); ("velero-snap-bb", None);
              ("velero-snap-cb", None)]
             (exec (CreateSnapshots 0%Z 5 threeCalls) plugin0 world0).1.2
             (exec (CreateSnapshots 0%Z 5 threeCalls) plugin0 world0).2).
    + exact plugin0_initialised.
    + vm_compute. reflexivity.
    + by repeat constructor.
  - apply (Hleaves 3 "pv-1" "zone-a" ∅ accepted.1.2 accepted.2 1%nat).
    + vm_compute. by split_and!.
    + lia.
    + vm_compute. reflexivity.
  - apply (Haccepted 3 "pv-1" "zone-a" ∅ accepted.1.2 accepted.2 1%nat).
    + vm_compute. by split_and!.
    + lia.
    + intros j Hj. assert (j = 0%nat) as -> by lia.
      exists (mkSnapshot "pv-1" "zone-a" ∅). vm_compute. reflexivity.
    + vm_compute. reflexivity.
    + reflexivity.
  - apply (Hrun 1%nat threeCalls plugin0 counting).
    + exact plugin0_initialised.
    + lia.
    + done.
    + intros n _. exact (lookup_empty (M := gmap string) _).
    + intros n m _ _ Heq. unfold candidate in Heq. cbn in Heq.
      injection Heq as Heq. revert m Heq.
      induction n as [|n IH]; intros [|m] Heq; cbn in Heq; try done.
      f_equal. apply IH. by injection Heq.
Defined.

(** [pv-1] was registered by a CreateSnapshot from [zone-a]; its descriptor,
    a CreateSnapshot from another zone and a descriptor with another
    storage class come later and change nothing. *)
Lemma later_registrations_keep_zone_a :
  index
    (volumes
       (session 0%Z FromBag ToBag
          [CallGetVolumeID pv1; CallCreateSnapshot 5 "pv-1" "zone-b" ∅;
           CallGetVolumeID pv1Slow]
          (accepted.1.2, accepted.2)).1)
    "pv-1" =
  Some (mkVolume "pv-1" "zone-a" "" "v1" 0%Z).
Proof.
  apply (volume_registration_first_write_wins 0%Z FromBag ToBag).
  vm_compute. reflexivity.
Defined.

Lemma GetVolumeID_on_the_examples :
  (∃ w', exec (GetVolumeID 0%Z FromBag noClass) plugin0 world0 =
           (Val ("", None), plugin0, w') ∧
         issued w' = issued world0) ∧
  (∃ p1 w1 w2,
     exec (GetVolumeID 0%Z FromBag pv1) plugin0 world0 =
       (Val ("pv-1", None), p1, w1) ∧
     index (volumes p1) "pv-1" =
       Some (mkVolume "pv-1" "" "fast" "v1" 10737418240%Z) ∧
     (∀ k, k ≠ "pv-1" → index (volumes p1) k = (∅ : gmap string Volume) !! k) ∧
     snapshots p1 = snapshots plugin0 ∧
     issued w1 = issued world0 ∧
     exec (GetVolumeID 0%Z FromBag pv1) p1 w1 = (Val ("pv-1", None), p1, w2)).
Proof.
  split.
  - destruct (GetVolumeID_sentinel_and_registration 0%Z FromBag noClass
                (mkPV "pv-2" "" ∅ ()) plugin0 world0 eq_refl) as [Hempty _].
    apply Hempty. by right.
  - destruct (GetVolumeID_sentinel_and_registration 0%Z FromBag pv1 pv1Volume
                plugin0 world0 eq_refl) as [_ Hregisters].
    assert (Hmade : volumes plugin0 = Some ∅) by (vm_compute; reflexivity).
    exact (Hregisters ltac:(done) ltac:(done) ∅ Hmade).
Defined.

Lemma SetVolumeID_on_the_examples :
  (∃ err w',
     exec (SetVolumeID FromBag ToBag pv1 "does-not-exist") plugin1 world0 =
       (Val (None, Some err), plugin1, w') ∧
     issued w' = issued world0 ∧
     ∀ pv, FromBag pv1 = inr pv →
       err = Errorf "volume %s does not exist in the group" ["does-not-exist"] ∧
       Error err =
         Sprintf "volume %s does not exist in the group" ["does-not-exist"]) ∧
  (∃ w',
     exec (SetVolumeID FromBag ToBag noClass "pv-1") plugin1 world0 =
       (Val (Some [("metadata.name", Str "pv-1");
                   ("spec.storageClassName", Str "")], None), plugin1, w') ∧
     issued w' = issued world0).
Proof.
  split.
  - destruct (SetVolumeID_unknown_and_known FromBag ToBag pv1 "does-not-exist"
                plugin1 world0) as [Hunknown _].
    apply Hunknown. vm_compute. reflexivity.
  - destruct (SetVolumeID_unknown_and_known FromBag ToBag noClass "pv-1"
                plugin1 world0) as [_ Hknown].
    apply (Hknown (mkVolume "pv-1" "" "fast" "v1" 10737418240%Z)
             (mkPV "pv-2" "" ∅ ())).
    + vm_compute. reflexivity.
    + reflexivity.
    + reflexivity.
Defined.

Lemma pv1_round_trip :
  ∃ volumeID p1 w1 w2,
    exec (GetVolumeID 0%Z FromBag pv1) plugin0 world0 =
      (Val (volumeID, None), p1, w1) ∧
    volumeID = "pv-1" ∧
    exec (SetVolumeID FromBag ToBag pv1 volumeID) p1 w1 =
      (Val (Some pv1, None), p1, w2) ∧
    ∃ pv', ToBag pv' = inr pv1 ∧ Name pv' = "pv-1" ∧ pv' = pv1Volume.
Proof.
  apply (GetVolumeID_SetVolumeID_round_trip 0%Z FromBag ToBag pv1 pv1Volume pv1
           plugin0 world0).
  - exact plugin0_reachable.
  - vm_compute. discriminate.
  - reflexivity.
  - done.
  - done.
  - vm_compute. reflexivity.
Defined.

(** The first call runs its eleven actions, then the second its own: the
    second finds [pv-1] and leaves the record of [zone-a]. *)
Lemma calls_in_turn_keep_zone_a :
  index
    (volumes
       (raced (replicate 11 true ++ replicate 11 false) callA callB
          plugin0 world2))
    "pv-1" =
  Some (mkVolume "pv-1" "zone-a" "" "v1" 0%Z).
Proof.
  apply (CreateSnapshot_calls_in_turn_keep_first_record (Unstructured := bag)
           0%Z 5 5 "pv-1" "zone-a" "zone-b" ∅ ∅ plugin0 world2 11
           (replicate 11 false)).
  - vm_compute. reflexivity.
  - vm_compute. reflexivity.
Defined.

(** Two CreateSnapshot calls for [pv-1] overlap on one initialised plugin.
    Each reads [p.volumes] before the other has written, so each finds the
    name free.  The first then stores the record of [zone-a]; the second
    stores its own over it.  Both calls return a name and a nil error, and
    the record under [pv-1] has changed from [zone-a] to [zone-b]: the
    read and the write of a registration are not one atomic action, and
    nothing serialises the two calls. *)
Lemma overlapping_calls_overwrite_first_record :
  let afterFirstWrite := (bothReadFirst ++ [true])%list in
  let toTheEnd := (bothReadFirst ++ thenBothWrite)%list in
  index (volumes (raced bothReadFirst callA callB plugin0 world2)) "pv-1"
    = None ∧
  index (volumes (raced afterFirstWrite callA callB plugin0 world2)) "pv-1"
    = Some (mkVolume "pv-1" "zone-a" "" "v1" 0%Z) ∧
  index (volumes (raced toTheEnd callA callB plugin0 world2)) "pv-1"
    = Some (mkVolume "pv-1" "zone-b" "" "v1" 0%Z) ∧
  (race toTheEnd callA callB plugin0 world2).1.1 =
    (Ret ("velero-snap-bb", None), Ret ("velero-snap-cb", None)) ∧
  ¬ (∀ (s1 s2 : list bool) v,
       index (volumes (raced s1 callA callB plugin0 world2)) "pv-1" = Some v →
       index (volumes (raced (s1 ++ s2) callA callB plugin0 world2)) "pv-1"
         = Some v).
Proof.
  intros afterFirstWrite toTheEnd.
  assert (H1 : index (volumes (raced afterFirstWrite callA callB plugin0 world2))
                 "pv-1" = Some (mkVolume "pv-1" "zone-a" "" "v1" 0%Z))
    by (vm_compute; reflexivity).
  assert (H2 : index (volumes (raced toTheEnd callA callB plugin0 world2))
                 "pv-1" = Some (mkVolume "pv-1" "zone-b" "" "v1" 0%Z))
    by (vm_compute; reflexivity).
  split; [vm_compute; reflexivity|]. split; [exact H1|]. split; [exact H2|].
  split; [vm_compute; reflexivity|].
  intros Hwins.
  specialize (Hwins afterFirstWrite (replicate 4 true ++ replicate 5 false)%list
                _ H1).
  assert (Hsame : (afterFirstWrite ++ replicate 4 true ++ replicate 5 false)%list
                  = toTheEnd) by reflexivity.
  rewrite Hsame, H2 in Hwins. discriminate.
Qed.

(** ** The further statements on the concrete setting *)

Lemma accepted_reachable : reachable 0%Z FromBag ToBag accepted.1.2.
Proof.
  exists [CallInit ∅; CallCreateSnapshot 5 "pv-1" "zone-a" ∅], world0.
  vm_compute. reflexivity.
Qed.


Lemma Init_in_the_cluster :
  (exec (Init ∅) (@NewVolumeSnapshotter Z) world0).1.1 = Val None ∧
  initialised plugin0 ∧
  k8sClient plugin0 =
    Some (mkK8sClientset (mkRestConfig "https://kubernetes.default.svc")) ∧
  lhClient plugin0 =
    Some (mkLhClientset (mkRestConfig "https://kubernetes.default.svc")).
Proof.
  destruct (Init_succeeds_exactly_when_clients_are_built (Unstructured := bag)
              ∅ (@NewVolumeSnapshotter Z) world0) as [Hiff Hthen].
  split.
  - apply Hiff. eexists _, _, _. by split_and!.
  - by apply (Hthen (mkRestConfig "https://kubernetes.default.svc")).
Defined.

Lemma Init_in_three_broken_clusters :
  (exec (Init ∅) (@NewVolumeSnapshotter Z) outsideCluster).1.1 =
    Val (Some (New "error fetching cluster config")) ∧
  (exec (Init ∅) (@NewVolumeSnapshotter Z) noKubernetes).1.1 =
    Val (Some (Wrap (Foreign "invalid configuration")
                 "failed to create k8s client")) ∧
  (exec (Init ∅) (@NewVolumeSnapshotter Z) noLonghorn).1.1 =
    Val (Some (Wrap (Foreign "no Longhorn API")
                 "failed to create longhorn client")) ∧
  k8sClient halfInitialised =
    Some (mkK8sClientset (mkRestConfig "https://kubernetes.default.svc")) ∧
  lhClient halfInitialised = None.
Proof.
  destruct (Init_failures (Unstructured := bag) ∅ (@NewVolumeSnapshotter Z)
              outsideCluster) as (Hconfig & _ & _).
  destruct (Init_failures (Unstructured := bag) ∅ (@NewVolumeSnapshotter Z)
              noKubernetes) as (_ & Hk8s & _).
  destruct (Init_failures (Unstructured := bag) ∅ (@NewVolumeSnapshotter Z)
              noLonghorn) as (_ & _ & Hlh).
  destruct (Hconfig _ eq_refl) as (H1 & _).
  destruct (Hk8s _ _ eq_refl eq_refl) as (H2 & _).
  destruct (Hlh _ _ _ eq_refl eq_refl eq_refl) as (H3 & _ & H4 & H5).
  by split_and!.
Defined.

Lemma CreateSnapshot_on_a_new_plugin :
  ∃ w', exec (CreateSnapshot 0%Z 5 "pv-1" "zone-a" ∅)
          (@NewVolumeSnapshotter Z) world0 =
          (Panicked nil_map_panic, NewVolumeSnapshotter, w') ∧
        issued w' = issued world0.
Proof.
  apply (CreateSnapshot_without_maps_panics (Unstructured := bag) 0%Z 5
           "pv-1" "zone-a" ∅ NewVolumeSnapshotter world0 0).
  - reflexivity.
  - lia.
  - reflexivity.
Defined.

Lemma CreateSnapshot_after_a_failed_Init :
  ∃ snapshotID p' w',
    exec (CreateSnapshot 0%Z 5 "pv-1" "zone-a" ∅) halfInitialised noLonghorn =
      (Panicked nil_deref_panic, p', w') ∧
    (∅ : gmap string Snapshot) !! snapshotID = None ∧
    index (snapshots p') snapshotID = Some (mkSnapshot "pv-1" "zone-a" ∅) ∧
    index (volumes p') "pv-1" =
      Some (default (mkVolume "pv-1" "zone-a" "" "v1" 0%Z)
              ((∅ : gmap string Volume) !! "pv-1")) ∧
    issued w' = issued noLonghorn.
Proof.
  apply (CreateSnapshot_without_client_panics_after_storing
           (Unstructured := bag) 0%Z 5 "pv-1" "zone-a" ∅ halfInitialised
           noLonghorn 0 ∅ ∅).
  - vm_compute. reflexivity.
  - vm_compute. reflexivity.
  - vm_compute. reflexivity.
  - lia.
  - reflexivity.
Defined.

Lemma CreateSnapshot_with_a_repeating_generator :
  ∃ w', exec (CreateSnapshot 0%Z 4 "pv-2" "zone-a" ∅) accepted.1.2 repeating =
          (Spinning, accepted.1.2, w') ∧
        issued w' = issued repeating ∧
        drawn w' = (drawn repeating + 4)%nat.
Proof.
  apply (CreateSnapshot_keeps_drawing_while_names_collide (Unstructured := bag)
           0%Z 4 "pv-2" "zone-a" ∅ accepted.1.2 repeating).
  intros j _. exists (mkSnapshot "pv-1" "zone-a" ∅). vm_compute. reflexivity.
Defined.


Lemma GetVolumeID_on_a_new_plugin :
  ∃ w', exec (GetVolumeID 0%Z FromBag pv1) (@NewVolumeSnapshotter Z) world0 =
          (Panicked nil_map_panic, NewVolumeSnapshotter, w') ∧
        issued w' = issued world0.
Proof.
  by apply (GetVolumeID_without_maps_panics 0%Z FromBag pv1 pv1Volume
              NewVolumeSnapshotter world0).
Defined.

Lemma conversion_errors_on_the_examples :
  (∃ w', exec (GetVolumeID 0%Z FromBag malformed) plugin1 world0 =
           (Val ("", Some (WithStack
                    (Foreign "cannot convert metadata.name to string"))),
            plugin1, w') ∧
         issued w' = issued world0) ∧
  (∃ w', exec (SetVolumeID FromBag ToNothing malformed "pv-1") plugin1 world0 =
           (Val (None, Some (WithStack
                    (Foreign "cannot convert metadata.name to string"))),
            plugin1, w') ∧
         issued w' = issued world0) ∧
  (∃ w', exec (SetVolumeID FromBag ToNothing pv1 "pv-1") plugin1 world0 =
           (Val (None, Some (WithStack (Foreign "cannot convert back"))),
            plugin1, w') ∧
         issued w' = issued world0).
Proof.
  destruct (conversion_errors_come_back_wrapped 0%Z FromBag ToNothing
              malformed "pv-1" plugin1 world0) as [Hrefused _].
  destruct (conversion_errors_come_back_wrapped 0%Z FromBag ToNothing
              pv1 "pv-1" plugin1 world0) as [_ Hback].
  destruct (Hrefused _ eq_refl) as (_ & Hget & Hset).
  split; [exact Hget|]. split; [exact Hset|].
  apply (Hback pv1Volume (mkVolume "pv-1" "" "fast" "v1" 10737418240%Z)).
  - reflexivity.
  - vm_compute. reflexivity.
  - reflexivity.
Defined.

Lemma busy_session_keeps_the_first_snapshot :
  index
    (snapshots
       (session 0%Z FromBag ToBag
          (CallDeleteSnapshot "velero-snap-aa" :: busySession)
          (accepted.1.2, accepted.2)).1)
    "velero-snap-aa" =
  Some (mkSnapshot "pv-1" "zone-a" ∅).
Proof.
  apply (session_keeps_every_snapshot 0%Z FromBag ToBag).
  vm_compute. reflexivity.
Defined.

Lemma accepted_volumes_sound :
  volumes_sound accepted.1.2 ∧
  (volumes accepted.1.2 = None ↔ snapshots accepted.1.2 = None).
Proof.
  exact (reachable_volumes_sound 0%Z FromBag ToBag accepted.1.2
           accepted_reachable).
Defined.

Lemma accepted_snapshots_sound : snapshots_sound accepted.1.2.
Proof.
  exact (reachable_snapshots_sound 0%Z FromBag ToBag accepted.1.2
           accepted_reachable).
Defined.

Lemma busy_session_requests_tracked :
  tracked (session 0%Z FromBag ToBag busySession (plugin0, refusing)).1
          (session 0%Z FromBag ToBag busySession (plugin0, refusing)).2.
Proof.
  apply (session_keeps_requests_tracked 0%Z FromBag ToBag).
  split.
  - constructor.
  - intros req Hin. by apply elem_of_nil in Hin.
Defined.

Lemma reading_calls_change_nothing :
  (session 0%Z FromBag ToBag readingCalls (plugin1, world0)).1 = plugin1 ∧
  issued (session 0%Z FromBag ToBag readingCalls (plugin1, world0)).2 =
    issued world0 ∧
  drawn (session 0%Z FromBag ToBag readingCalls (plugin1, world0)).2 =
    drawn world0.
Proof.
  apply (session_of_reading_calls_changes_nothing 0%Z FromBag ToBag).
  by repeat constructor.
Defined.

Lemma pv1_descriptor_after_its_snapshot :
  ∃ w2,
    exec (GetVolumeID 0%Z FromBag pv1) accepted.1.2 accepted.2 =
      (Val ("pv-1", None), accepted.1.2, w2) ∧
    index (volumes accepted.1.2) "pv-1" =
      Some (mkVolume "pv-1" "zone-a" "" "v1" 0%Z).
Proof.
  apply (GetVolumeID_after_CreateSnapshot_learns_nothing 0%Z FromBag 5
           "zone-a" ∅ pv1 pv1Volume plugin0 world0 ("velero-snap-aa", None)).
  - exact plugin0_initialised.
  - reflexivity.
  - done.
  - done.
  - vm_compute. reflexivity.
  - vm_compute. reflexivity.
Defined.

Lemma deleted_snapshot_name_stays_taken :
  "velero-snap-bb" ≠ "velero-snap-aa" ∧
  index
    (snapshots
       (exec (CreateSnapshot 0%Z 5 "pv-1" "zone-b" ∅)
          (session 0%Z FromBag ToBag [CallDeleteSnapshot "velero-snap-aa"]
             (accepted.1.2, accepted.2)).1
          (session 0%Z FromBag ToBag [CallDeleteSnapshot "velero-snap-aa"]
             (accepted.1.2, accepted.2)).2).1.2)
    "velero-snap-aa" =
  Some (mkSnapshot "pv-1" "zone-a" ∅).
Proof.
  eapply (deleted_name_is_not_given_again 0%Z FromBag ToBag [] 5
            "pv-1" "zone-b" ∅ accepted.1.2 accepted.2 "velero-snap-aa").
  - vm_compute. reflexivity.
  - apply surjective_pairing.
  - vm_compute. by split_and!.
  - vm_compute. reflexivity.
Defined.
